(** * Password validation pipeline of demo-go

    A shallow embedding of the validator functions and of
    [validatePassword] (the Go listing in the repository's notes) and of
    [checkLength] (main.go), with the properties of the validation engine
    proved over it.

    Go strings are byte sequences: a [string] of Rocq, whose characters are
    8-bit [ascii] values, is exactly that.  [len] and indexing count bytes;
    a [range] loop decodes UTF-8 and yields runes (code points). *)

From Stdlib Require Import String Ascii ZArith List Bool Lia Permutation.
From ExtLib Require Import Structures.Monad Data.Monads.StateMonad.
From Equations Require Import Equations.
Import ListNotations.
Import MonadNotation.

Local Open Scope string_scope.
Local Open Scope list_scope.
Local Open Scope Z_scope.
Local Open Scope monad_scope.

(* ===================================================================== *)
(** ** Go run-time model *)
(* ===================================================================== *)

(** A Go computation either returns a value or panics (index out of
    range is the only run-time panic this program can raise). *)
Inductive go (A : Type) : Type :=
| Ret (a : A)
| Panic.
Arguments Ret {A} a.
Arguments Panic {A}.

#[export] Instance Monad_go : Monad go :=
  { ret := fun _ a => Ret a
  ; bind := fun _ _ c k => match c with Ret a => k a | Panic => Panic end }.

(** A rune is an int32 code point; bytes and runes are read as integers. *)
Definition rune := Z.

Definition byte_val (b : ascii) : Z := Z.of_N (N_of_ascii b).

(** [len(s)]: the number of bytes of [s]. *)
Definition len (s : string) : Z := Z.of_nat (String.length s).

(** [s[i]]: the byte at index [i]; panics when [i] is out of range. *)
Definition index (s : string) (i : Z) : go ascii :=
  if (0 <=? i) && (i <? len s) then
    match String.get (Z.to_nat i) s with
    | Some b => Ret b
    | None => Panic
    end
  else Panic.

(** [s[n:]] for [n <= len(s)]. *)
Fixpoint skip (n : nat) (s : string) : string :=
  match n, s with
  | S n', String _ s' => skip n' s'
  | _, _ => s
  end.

(** The bytes of a string, as integers. *)
Fixpoint bytes (s : string) : list Z :=
  match s with
  | EmptyString => []
  | String b s' => byte_val b :: bytes s'
  end.

(** *** UTF-8 decoding, as the Go run time does it for [range] *)

Module utf8.

Definition runeError : rune := 65533.    (* U+FFFD *)
Definition runeSelf : Z := 128.          (* 0x80 *)
Definition maxRune : rune := 1114111.    (* U+10FFFF *)
Definition surrogateMin : rune := 55296. (* 0xD800 *)
Definition surrogateMax : rune := 57343. (* 0xDFFF *)

Definition t2 : Z := 192.  (* 1100 0000 *)
Definition t3 : Z := 224.  (* 1110 0000 *)
Definition t4 : Z := 240.  (* 1111 0000 *)
Definition t5 : Z := 248.  (* 1111 1000 *)

Definition maskx : Z := 63. (* 0011 1111 *)
Definition mask2 : Z := 31. (* 0001 1111 *)
Definition mask3 : Z := 15. (* 0000 1111 *)
Definition mask4 : Z := 7.  (* 0000 0111 *)

Definition rune1Max : rune := 127.   (* 1<<7 - 1 *)
Definition rune2Max : rune := 2047.  (* 1<<11 - 1 *)
Definition rune3Max : rune := 65535. (* 1<<16 - 1 *)

Definition locb : Z := 128. (* 1000 0000 *)
Definition hicb : Z := 191. (* 1011 1111 *)

(** [locb <= b && b <= hicb]: [b] is a continuation byte. *)
Definition cont (b : Z) : bool := (locb <=? b) && (b <=? hicb).

(** [decoderune(s, k)] of the Go run time, on the suffix [s[k:]]: the
    rune that starts there and the number of bytes it takes.  Anything
    that is not a well-formed, shortest-form encoding of a scalar value
    gives [runeError] and a width of one byte. *)
Definition decoderune (s : string) : rune * nat :=
  match s with
  | EmptyString => (runeError, 1%nat)
  | String c0 s' =>
    let s0 := byte_val c0 in
    if (t2 <=? s0) && (s0 <? t3) then
      (* 0080-07FF two byte sequence *)
      match s' with
      | String c1 _ =>
        let s1 := byte_val c1 in
        if cont s1 then
          let r := Z.lor (Z.shiftl (Z.land s0 mask2) 6) (Z.land s1 maskx) in
          if rune1Max <? r then (r, 2%nat) else (runeError, 1%nat)
        else (runeError, 1%nat)
      | _ => (runeError, 1%nat)
      end
    else if (t3 <=? s0) && (s0 <? t4) then
      (* 0800-FFFF three byte sequence *)
      match s' with
      | String c1 (String c2 _) =>
        let s1 := byte_val c1 in
        let s2 := byte_val c2 in
        if cont s1 && cont s2 then
          let r := Z.lor (Z.lor (Z.shiftl (Z.land s0 mask3) 12)
                                (Z.shiftl (Z.land s1 maskx) 6))
                         (Z.land s2 maskx) in
          if (rune2Max <? r) && negb ((surrogateMin <=? r) && (r <=? surrogateMax))
          then (r, 3%nat) else (runeError, 1%nat)
        else (runeError, 1%nat)
      | _ => (runeError, 1%nat)
      end
    else if (t4 <=? s0) && (s0 <? t5) then
      (* 10000-1FFFFF four byte sequence *)
      match s' with
      | String c1 (String c2 (String c3 _)) =>
        let s1 := byte_val c1 in
        let s2 := byte_val c2 in
        let s3 := byte_val c3 in
        if cont s1 && cont s2 && cont s3 then
          let r := Z.lor (Z.lor (Z.lor (Z.shiftl (Z.land s0 mask4) 18)
                                       (Z.shiftl (Z.land s1 maskx) 12))
                                (Z.shiftl (Z.land s2 maskx) 6))
                         (Z.land s3 maskx) in
          if (rune3Max <? r) && (r <=? maxRune)
          then (r, 4%nat) else (runeError, 1%nat)
        else (runeError, 1%nat)
      | _ => (runeError, 1%nat)
      end
    else (runeError, 1%nat)
  end.

(** One iteration of [for _, c := range s] at a non-empty suffix: a byte
    below [runeSelf] is its own rune, anything else goes through
    [decoderune]. *)
Definition step (s : string) : rune * nat :=
  match s with
  | EmptyString => (runeError, 1%nat)
  | String c0 _ =>
    if byte_val c0 <? runeSelf then (byte_val c0, 1%nat) else decoderune s
  end.

(** The runes a [range] loop over [s] yields, in order.  Every iteration
    consumes at least one byte, so [String.length s] iterations are
    enough (see [runes_unfold]). *)
Fixpoint range (fuel : nat) (s : string) : list rune :=
  match fuel, s with
  | S fuel', String _ _ =>
    let '(r, size) := step s in r :: range fuel' (skip size s)
  | _, _ => []
  end.

Definition runes (s : string) : list rune := range (String.length s) s.

(** [utf8.RuneCountInString]: the number of code points of [s]. *)
Definition RuneCountInString (s : string) : Z := Z.of_nat (List.length (runes s)).

End utf8.

(* ===================================================================== *)
(** ** The parts of Go's standard library the validators call *)
(* ===================================================================== *)

Module unicode.

Definition MaxLatin1 : rune := 255.

(** [properties[uint8(r)]&pLmask == pLu]: the upper-case letters of
    Latin-1 are 'A'..'Z', U+00C0..U+00D6 and U+00D8..U+00DE. *)
Definition latin1Upper (r : rune) : bool :=
  ((65 <=? r) && (r <=? 90)) || ((192 <=? r) && (r <=? 214))
  || ((216 <=? r) && (r <=? 222)).

(** [unicode.IsUpper].  Beyond Latin-1 the answer comes from the range
    table [unicode.Upper], which is data of the standard library: it is
    the parameter [Upper]. *)
Definition IsUpper (Upper : rune -> bool) (r : rune) : bool :=
  if (0 <=? r) && (r <=? MaxLatin1) then latin1Upper r else Upper r.

(** [unicode.IsDigit], with the range table [unicode.Digit] as the
    parameter [Digit]. *)
Definition IsDigit (Digit : rune -> bool) (r : rune) : bool :=
  if r <=? MaxLatin1 then (48 <=? r) && (r <=? 57) else Digit r.

End unicode.

Module strings.

(** [strings.Contains(s, substr)]: [substr] occurs in [s] at some byte
    offset. *)
Fixpoint Contains (s substr : string) : bool :=
  String.prefix substr s
  || match s with
     | EmptyString => false
     | String _ s' => Contains s' substr
     end.

End strings.

Module regexp.

(** The only pattern the program compiles is one bracket expression
    without ranges or negation; such a pattern is the list of the code
    points between the brackets. *)
Definition Regexp := list rune.

Definition inClass (re : Regexp) (r : rune) : bool := existsb (Z.eqb r) re.

(** [re.MatchString(s)] (unanchored): the input is read rune by rune and
    the pattern matches as soon as one rune belongs to the class. *)
Definition MatchString (re : Regexp) (s : string) : bool :=
  existsb (inClass re) (utf8.runes s).

End regexp.

(* ===================================================================== *)
(** ** The validators *)
(* ===================================================================== *)

(** [type Validator func(password string) string]: the empty string means
    that the rule is satisfied. *)
Definition Validator : Type := string -> go string.

Definition errLength : string := "Password must be at least 8 characters long.".
Definition errUppercase : string := "Password must contain at least one uppercase letter.".
Definition errSpecialChar : string := "Password must include at least one special character.".
Definition errDigit : string := "Password must contain at least one digit.".
Definition errSpace : string := "Password must not contain spaces.".
Definition errCommon : string := "Password is too common.".
Definition errRepeating : string :=
  "Password must not have more than 2 repeated characters in a row.".

Definition lengthValidator : Validator := fun password =>
  if len password <? 8 then ret errLength else ret "".

(** The bracket expression of [regexp.MustCompile], in the order of the
    pattern: ! @ # $ % ^ & * ( ) , . ? double-quote : { } | < >.  None of
    them has a special meaning inside the brackets. *)
Definition specialChars : regexp.Regexp :=
  [33; 64; 35; 36; 37; 94; 38; 42; 40; 41; 44; 46; 63; 34; 58; 123; 125; 124; 60; 62].

Definition specialCharValidator : Validator := fun password =>
  let re := specialChars in
  if negb (regexp.MatchString re password) then ret errSpecialChar else ret "".

Definition spaceValidator : Validator := fun password =>
  if strings.Contains password " " then ret errSpace else ret "".

Definition commonPasswords : list string :=
  ["password"; "123456"; "qwerty"; "letmein"; "welcome"; "admin"; "abc123"].

Fixpoint commonPasswordLoop (password : string) (l : list string) : go string :=
  match l with
  | [] => ret ""
  | common :: l' =>
    if String.eqb password common then ret errCommon
    else commonPasswordLoop password l'
  end.

Definition commonPasswordValidator : Validator := fun password =>
  commonPasswordLoop password commonPasswords.

Section classified.

(** The range tables [unicode.Upper] and [unicode.Digit] outside Latin-1. *)
Variables Upper Digit : rune -> bool.

(** [for _, c := range password { if unicode.IsUpper(c) { return "" } }] *)
Fixpoint uppercaseLoop (rs : list rune) : go string :=
  match rs with
  | [] => ret errUppercase
  | c :: rs' => if unicode.IsUpper Upper c then ret "" else uppercaseLoop rs'
  end.

Definition uppercaseValidator : Validator := fun password =>
  uppercaseLoop (utf8.runes password).

Fixpoint digitLoop (rs : list rune) : go string :=
  match rs with
  | [] => ret errDigit
  | c :: rs' => if unicode.IsDigit Digit c then ret "" else digitLoop rs'
  end.

Definition digitValidator : Validator := fun password =>
  digitLoop (utf8.runes password).

End classified.

(** *** The repeat-run rule *)

(** What one pass through a loop body asks for next. *)
Inductive control : Type :=
| Return (result : string)
| Continue.

(** The body of the loop of [repeatingCharsValidator] at index [i]; [&&]
    evaluates its right operand only when the left one holds. *)
Definition repeatingCharsBody (password : string) (i : Z) : go control :=
  a <- index password i ;;
  b <- index password (i - 1) ;;
  if Ascii.eqb a b then
    b' <- index password (i - 1) ;;
    c <- index password (i - 2) ;;
    if Ascii.eqb b' c then ret (Return errRepeating) else ret Continue
  else ret Continue.

(** [for i := ...; i < len(password); i++ { body }; return ""], from the
    current value of [i].  The counter stays below [len(password)], which
    fits an int, so [i++] never wraps. *)
Equations? repeatingCharsLoop (password : string) (i : Z) : go string
  by wf (Z.to_nat (len password - i)) lt :=
  repeatingCharsLoop password i with Z_lt_dec i (len password) := {
    | right _ := Ret "";
    | left _ with repeatingCharsBody password i := {
      | Panic := Panic;
      | Ret (Return result) := Ret result;
      | Ret Continue := repeatingCharsLoop password (i + 1) } }.
Proof. lia. Qed.

Definition repeatingCharsValidator : Validator := fun password =>
  repeatingCharsLoop password 2.

(* ===================================================================== *)
(** ** The validation engine *)
(* ===================================================================== *)

Section engine.

(** The engine is written once for any monad [m] the rules run in: [go]
    for the rules of this program, and a state monad over [go] to study
    rules that could keep state between calls. *)
Context {m : Type -> Type} {M : Monad m}.

(** The loop of [validatePassword]; [errors] is the slice built so far. *)
Fixpoint validateLoop (password : string) (validators : list (string -> m string))
         (errors : list string) : m (list string) :=
  match validators with
  | [] => ret errors
  | validator :: rest =>
    err <- validator password ;;
    if negb (String.eqb err "") then validateLoop password rest (errors ++ [err])
    else validateLoop password rest errors
  end.

Definition validatePassword (password : string)
           (validators : list (string -> m string)) : m (list string) :=
  validateLoop password validators [].

End engine.

(** The slice [validators] of [main]. *)
Definition validators (Upper Digit : rune -> bool) : list Validator :=
  [ lengthValidator;
    uppercaseValidator Upper;
    specialCharValidator;
    digitValidator Digit;
    spaceValidator;
    commonPasswordValidator;
    repeatingCharsValidator ].

(** [checkLength] of main.go, as a function of the token that
    [fmt.Scanln] stored in [password]. *)
Definition checkLength (password : string) : bool := 5 <=? len password.

(* ===================================================================== *)
(** ** Notions used to state the properties *)
(* ===================================================================== *)

(** [err != ""]. *)
Definition nonEmpty (d : string) : bool := negb (String.eqb d "").

(** Every rule run against the input, first to last, all answers kept. *)
Fixpoint runAll (password : string) (rules : list Validator) : go (list string) :=
  match rules with
  | [] => ret []
  | rule :: rest =>
    d <- rule password ;;
    ds <- runAll password rest ;;
    ret (d :: ds)
  end.

(** A rule that is a total function of its input. *)
Definition pureRule (f : string -> string) : Validator :=
  fun password => ret (f password).

(** Two runs end the same way, with results related by [R]. *)
Definition go_rel {A B : Type} (R : A -> B -> Prop) (x : go A) (y : go B) : Prop :=
  match x, y with
  | Ret a, Ret b => R a b
  | Panic, Panic => True
  | _, _ => False
  end.

(** The same diagnostics appear in both results. *)
Definition sameDiagnostics (d1 d2 : list string) : Prop :=
  forall d, In d d1 <-> In d d2.

Section stateful.

(** Whatever a Go function could read and write besides its argument. *)
Variable World : Type.

#[local] Existing Instance Monad_stateT.

Definition Stateful : Type -> Type := stateT World go.

(** A rule of the program, seen as a function that could touch the
    world but does not. *)
Definition statelessRule (f : Validator) : string -> Stateful string :=
  fun password => mkStateT (fun w => d <- f password ;; ret (d, w)).

(** Two calls of [validatePassword] in a row. *)
Definition validateTwice (password : string)
           (rules : list (string -> Stateful string))
  : Stateful (list string * list string) :=
  first <- validatePassword password rules ;;
  second <- validatePassword password rules ;;
  ret (first, second).

End stateful.

(** A rule that counts its calls and complains from the second one on. *)
Definition countingRule : string -> Stateful nat string :=
  fun _ => mkStateT (fun calls =>
    Ret (if Nat.eqb calls 0 then "" else "seen before", S calls)).

(** A rule contributes the diagnostic [d] on an input when it returns
    [d] and [d] is not empty (so that [validatePassword] appends it); it is
    silent when it returns the empty string. *)
Definition contributes (rule : Validator) (password d : string) : Prop :=
  rule password = Ret d /\ d <> "".

Definition silent (rule : Validator) (password : string) : Prop :=
  rule password = Ret "".

(** Some byte of the string occurs three times in a row. *)
Definition byteRun3 (s : string) : Prop :=
  exists (pre : string) (b : ascii) (post : string),
    s = (pre ++ String b (String b (String b post)))%string.

(** The bytes at indices [i-2], [i-1] and [i] exist and are equal. *)
Definition tripleAt (s : string) (i : Z) : Prop :=
  exists b : ascii,
    String.get (Z.to_nat (i - 2)) s = Some b
    /\ String.get (Z.to_nat (i - 1)) s = Some b
    /\ String.get (Z.to_nat i) s = Some b.

(** Some character (code point) of the string occurs three times in a row. *)
Definition runeRun3 (s : string) : Prop :=
  exists (pre : list rune) (r : rune) (post : list rune),
    utf8.runes s = pre ++ r :: r :: r :: post.

(** Every character of the string is a single byte (below U+0080). *)
Definition asciiOnly (s : string) : Prop := Forall (fun b => b < 128) (bytes s).

(** The euro sign U+20AC, whose UTF-8 encoding is E2 82 AC, three times. *)
Definition euro3 : string :=
  String "226" (String "130" (String "172"
  (String "226" (String "130" (String "172"
  (String "226" (String "130" (String "172" "")))))))).


(** A tab, a line feed, a carriage return and a no-break space (U+00A0,
    bytes 194 160) around two letters: white space, but no U+0020. *)
Definition tabsAndNewlines : string :=
  String "009" (String "a" (String "010" (String "013"
  (String "194" (String "160" (String "b" "")))))).

#[local] Existing Instance Monad_stateT.

(* ===================================================================== *)
(** ** The two validators the notes add, and the list they extend *)
(* ===================================================================== *)

Definition errSpecificWord : string :=
  "Password must not contain the word 'password'.".
Definition errInvalidChars : string := "Password contains invalid characters.".

Definition noSpecificWordValidator : Validator := fun password =>
  if strings.Contains password "password" then ret errSpecificWord else ret "".

(** A bracket expression with ranges is a list of pairs [lo, hi] of code
    points, as in regexp/syntax. *)
Definition inRanges (ranges : list (rune * rune)) (r : rune) : bool :=
  existsb (fun range => (fst range <=? r) && (r <=? snd range)) ranges.

(** [re.MatchString(s)] for a pattern that is a starred bracket expression
    between [^] and [$]: without flags both anchors stand for the ends of
    the text, so the pattern matches exactly when every rune of the input
    belongs to the class. *)
Definition MatchStringAll (ranges : list (rune * rune)) (s : string) : bool :=
  forallb (inRanges ranges) (utf8.runes s).

(** The class [A-Za-z0-9!@#]. *)
Definition allowedChars : list (rune * rune) :=
  [(65, 90); (97, 122); (48, 57); (33, 33); (64, 64); (35, 35)].

Definition regexPatternValidator : Validator := fun password =>
  let re := allowedChars in
  if negb (MatchStringAll re password) then ret errInvalidChars else ret "".

(** [validators = append(validators, noSpecificWordValidator)] followed by
    [validators = append(validators, regexPatternValidator)]. *)
Definition extendedValidators (Upper Digit : rune -> bool) : list Validator :=
  (validators Upper Digit ++ [noSpecificWordValidator]) ++ [regexPatternValidator].

(* ===================================================================== *)
(** ** Console programs *)
(* ===================================================================== *)

(** The console as the programs see it: [stdin] holds, one per call, the
    value that each coming call of [fmt.Scan] or [fmt.Scanln] leaves in its
    variable, and [stdout] the pieces of text written so far, oldest
    first. *)
Record console (T : Type) : Type :=
  { stdin : list T; stdout : list string }.
Arguments stdin {T} c.
Arguments stdout {T} c.

Definition newline : string := String "010" "".

(** [fmt.Print(s)] and [fmt.Println(s)] for one string operand. *)
Definition Print {T : Type} (s : string) : Stateful (console T) unit :=
  mkStateT (fun w => ret (tt, {| stdin := stdin w; stdout := stdout w ++ [s] |})).

Definition Println {T : Type} (s : string) : Stateful (console T) unit :=
  Print (s ++ newline)%string.

(** [fmt.Scan(&x)] and [fmt.Scanln(&x)] on a variable that holds [zero]:
    the value of [x] after the call.  When nothing can be read (end of
    input, or text that is no value of the type) the call returns an
    error, which the programs ignore, and [x] keeps [zero]. *)
Definition Scan {T : Type} (zero : T) : Stateful (console T) T :=
  mkStateT (fun w =>
    match stdin w with
    | [] => ret (zero, w)
    | x :: rest => ret (x, {| stdin := rest; stdout := stdout w |})
    end).

(** A computation without console effects, run in a console program. *)
Definition liftGo {T A : Type} (c : go A) : Stateful (console T) A :=
  mkStateT (fun w => a <- c ;; ret (a, w)).

(** How one pass through the body of a [for { ... }] loop ends: at the
    closing brace, or by [break] or [return]. *)
Inductive flow : Type :=
| Next
| Stop.

(** [for { body }], cut after [fuel] passes: [true] when the loop was left
    within them, [false] when it is still running. *)
Fixpoint forever {W : Type} (fuel : nat) (body : Stateful W flow) : Stateful W bool :=
  match fuel with
  | O => ret false
  | S fuel' =>
    f <- body ;;
    match f with
    | Stop => ret true
    | Next => forever fuel' body
    end
  end.

(** *** The menu of main.go *)

Module menu.

Definition optionA : Stateful (console Z) unit := Println "Option A selected".

Definition optionB : Stateful (console Z) unit := Println "Option B selected".

Definition body : Stateful (console Z) flow :=
  Println "Choose app: " ;;
  Println "1 Option A" ;;
  Println "2 Option B" ;;
  Println "3 Exit" ;;
  x <- Scan 0 ;;
  if x =? 1 then optionA ;; ret Next
  else if x =? 2 then optionB ;; ret Next
  else if x =? 3 then Println "Exited" ;; ret Stop
  else Println "Not an option" ;; ret Next.

Definition main (fuel : nat) : Stateful (console Z) bool := forever fuel body.

End menu.

(** *** The loop of [main] around [validatePassword] *)

Module prompt.

(** [for _, err := range errors { fmt.Println(err) }] *)
Fixpoint printErrors (errors : list string) : Stateful (console string) unit :=
  match errors with
  | [] => ret tt
  | err :: rest => Println err ;; printErrors rest
  end.

Definition body (Upper Digit : rune -> bool) : Stateful (console string) flow :=
  Print "Enter password: " ;;
  password <- Scan "" ;;
  errors <- liftGo (validatePassword password (validators Upper Digit)) ;;
  if Z.of_nat (List.length errors) =? 0 then
    Println "Password is valid!" ;; ret Stop
  else
    printErrors errors ;; ret Next.

Definition main (Upper Digit : rune -> bool) (fuel : nat)
  : Stateful (console string) bool :=
  forever fuel (body Upper Digit).

End prompt.

(** *** What the console programs are expected to write *)

(** The diagnostics of the seven rules of [main] for a password. *)
Definition diagnosticsOf (Upper Digit : rune -> bool) (password : string) : list string :=
  match validatePassword password (validators Upper Digit) with
  | Ret ds => ds
  | Panic => []
  end.

(** The four lines of the menu. *)
Definition menuText : list string :=
  [ ("Choose app: " ++ newline)%string;
    ("1 Option A" ++ newline)%string;
    ("2 Option B" ++ newline)%string;
    ("3 Exit" ++ newline)%string ].

(** The answer of the menu to a choice other than 3. *)
Definition menuAnswer (x : Z) : string :=
  if x =? 1 then ("Option A selected" ++ newline)%string
  else if x =? 2 then ("Option B selected" ++ newline)%string
  else ("Not an option" ++ newline)%string.

(** The seven diagnostics, in the order of the rules. *)
Definition allDiagnostics : list string :=
  [errLength; errUppercase; errSpecialChar; errDigit; errSpace; errCommon; errRepeating].

(** [sub] occurs in [s]. *)
Definition substring_of (sub s : string) : Prop :=
  exists pre post : string, s = (pre ++ sub ++ post)%string.

(** *** The menu with a pause, the variant kept with the notes *)

Module menu_pause.

Definition optionA : Stateful (console Z) unit := Println "Option A selected".

Definition optionB : Stateful (console Z) unit := Println "Option B selected".

(** The escape sequences that move the cursor home and clear the screen. *)
Definition clearScreen : string :=
  (String "027" "[H" ++ String "027" "[2J")%string.

(** [fmt.Scanln()] without operands stores nothing; what it takes from
    the input shows in the values later calls of [fmt.Scan] store, which
    is what [stdin] lists. *)
Definition ScanlnNothing : Stateful (console Z) unit := ret tt.

Definition body : Stateful (console Z) flow :=
  Print clearScreen ;;
  Println "Choose app: " ;;
  Println "[1] Calculator" ;;
  Println "[2] ???" ;;
  Println "[3] Exit" ;;
  x <- Scan 0 ;;
  f <- (if x =? 1 then optionA ;; ret Next
        else if x =? 2 then optionB ;; ret Next
        else if x =? 3 then Println "Exited" ;; ret Stop
        else Println "Not an option" ;; ret Next) ;;
  match f with
  | Stop => ret Stop
  | Next =>
    Println "Press Enter to continue..." ;;
    ScanlnNothing ;;
    ret Next
  end.

Definition main (fuel : nat) : Stateful (console Z) bool := forever fuel body.

End menu_pause.

(** What the menu writes for a choice other than 3. *)
Definition menuRound (x : Z) : list string := menuText ++ [menuAnswer x].

(** What the menu writes for the choice 3. *)
Definition menuExit : list string := menuText ++ [("Exited" ++ newline)%string].




(** The values the first [fuel] calls of a scan function store when [xs]
    is what the input holds: after the end of the input the variable keeps
    its zero value. *)
Definition scanned {T : Type} (zero : T) (fuel : nat) (xs : list T) : list T :=
  firstn fuel xs ++ repeat zero (fuel - List.length xs).

(** What the password prompt writes for one password. *)
Definition promptRound (Upper Digit : rune -> bool) (password : string) : list string :=
  "Enter password: "
  :: match diagnosticsOf Upper Digit password with
     | [] => [("Password is valid!" ++ newline)%string]
     | ds => map (fun err => (err ++ newline)%string) ds
     end.

(** Proof tools: the constants of the decoder, and boolean tests as
    arithmetic facts. *)
Ltac utf8_consts :=
  unfold utf8.cont, utf8.t2, utf8.t3, utf8.t4, utf8.t5, utf8.locb, utf8.hicb,
    utf8.rune1Max, utf8.rune2Max, utf8.rune3Max, utf8.maxRune,
    utf8.surrogateMin, utf8.surrogateMax, utf8.runeError, utf8.runeSelf in *.

Ltac bool_hyps :=
  repeat match goal with
         | H : _ && _ = true |- _ => apply andb_prop in H; destruct H
         | H : (_ <=? _) = true |- _ => apply Z.leb_le in H
         | H : (_ <? _) = true |- _ => apply Z.ltb_lt in H
         | H : (_ <=? _) = false |- _ => apply Z.leb_gt in H
         | H : (_ <? _) = false |- _ => apply Z.ltb_ge in H
         end.

(* ===================================================================== *)
(** ** The engine: order, completeness, permutations, repeated calls *)
(* ===================================================================== *)

Lemma nonEmpty_false (d : string) : nonEmpty d = false <-> d = "".
Proof.
  unfold nonEmpty. rewrite negb_false_iff. apply String.eqb_eq.
Qed.

Lemma validateLoop_runAll (password : string) (rules : list Validator) :
  forall errors,
    validateLoop password rules errors
    = (ds <- runAll password rules ;; ret (errors ++ filter nonEmpty ds)).
Proof.
  induction rules as [|rule rest IH]; intros errors; simpl.
  - now rewrite app_nil_r.
  - destruct (rule password) as [err|]; [|reflexivity].
    fold (nonEmpty err).
    destruct (nonEmpty err) eqn:E; rewrite IH; simpl;
      destruct (runAll password rest) as [ds|]; simpl; try reflexivity.
    + now rewrite E, <- app_assoc.
    + now rewrite E.
Qed.

Lemma runAll_pure (password : string) (fs : list (string -> string)) :
  runAll password (map pureRule fs) = Ret (map (fun f => f password) fs).
Proof.
  induction fs as [|f fs IH]; simpl; [reflexivity|].
  now rewrite IH.
Qed.

Lemma runAll_Ret (password : string) (rules : list Validator) (ds : list string) :
  runAll password rules = Ret ds <-> Forall2 (fun rule d => rule password = Ret d) rules ds.
Proof.
  revert ds. induction rules as [|rule rest IH]; intros ds; simpl.
  - split.
    + intros H. injection H as <-. constructor.
    + intros H. inversion H. reflexivity.
  - split.
    + destruct (rule password) as [d|] eqn:E; [|discriminate].
      destruct (runAll password rest) as [ds'|]; [|discriminate].
      simpl. intros H. injection H as <-.
      constructor; [exact E|]. now apply IH.
    + intros H. inversion H as [|? d ? ds' Hd Hrest]; subst.
      rewrite Hd. apply IH in Hrest. now rewrite Hrest.
Qed.

Lemma filter_nonEmpty_nil (ds : list string) :
  filter nonEmpty ds = [] <-> Forall (fun d => d = "") ds.
Proof.
  induction ds as [|d ds IH]; simpl.
  - split; constructor.
  - destruct (nonEmpty d) eqn:E.
    + split; [discriminate|].
      intros H. inversion H; subst. discriminate.
    + apply nonEmpty_false in E. rewrite IH. split.
      * now constructor.
      * intros H. now inversion H.
Qed.

(** The engine in one line: all rules run, non-empty answers kept. *)
Lemma validatePassword_runAll (password : string) (rules : list Validator) :
  validatePassword password rules
  = (ds <- runAll password rules ;; ret (filter nonEmpty ds)).
Proof.
  unfold validatePassword. now rewrite validateLoop_runAll.
Qed.

Lemma validateLoop_stateless (World : Type) (password : string) (fs : list Validator) :
  forall (errors : list string) (w : World),
    runStateT (validateLoop password (map (statelessRule World) fs) errors) w
    = (r <- validateLoop password fs errors ;; ret (r, w)).
Proof.
  induction fs as [|f fs IH]; intros errors w; simpl; [reflexivity|].
  destruct (f password) as [err|]; simpl; [|reflexivity].
  destruct (negb (String.eqb err "")); apply IH.
Qed.

(** Run among functions that may touch the world, the rules of the
    program make [validatePassword] return what it returns without a world,
    and the world is left as it was. *)
Lemma validatePassword_stateless (World : Type) (password : string)
      (fs : list Validator) (w : World) :
  runStateT (validatePassword password (map (statelessRule World) fs)) w
  = (r <- validatePassword password fs ;; ret (r, w)).
Proof.
  unfold validatePassword. apply validateLoop_stateless.
Qed.

(** C1: [validatePassword] runs every rule in registration order and
    returns exactly their non-empty diagnostics, in that order, whatever
    the number of rules that fail; for rules that are total functions the
    result is the filtered list of their answers; the result is empty
    exactly when every rule answers the empty string; and the call has no
    effect: in any world the result is the one the input and the rule list
    determine, and the world stays as it was. *)
Theorem validatePassword_collects (password : string) :
  (forall rules : list Validator,
      validatePassword password rules
      = (ds <- runAll password rules ;; ret (filter nonEmpty ds)))
  /\ (forall fs : list (string -> string),
         validatePassword password (map pureRule fs)
         = Ret (filter nonEmpty (map (fun f => f password) fs)))
  /\ (forall rules : list Validator,
         validatePassword password rules = Ret []
         <-> Forall (fun rule => rule password = Ret "") rules)
  /\ (forall (World : Type) (rules : list Validator) (w : World),
         runStateT (validatePassword password (map (statelessRule World) rules)) w
         = (r <- validatePassword password rules ;; ret (r, w))).
Proof.
  pose proof (validatePassword_runAll password) as Hrun.
  split; [exact Hrun|split; [|split]].
  - intros fs. now rewrite Hrun, runAll_pure.
  - intros rules. rewrite Hrun. split.
    + destruct (runAll password rules) as [ds|] eqn:E; simpl; [|discriminate].
      intros H. injection H as H.
      apply runAll_Ret in E. apply filter_nonEmpty_nil in H.
      clear Hrun. induction E as [|rule d rest ds Hd _ IH]; constructor.
      * inversion H; subst. exact Hd.
      * apply IH. now inversion H.
    + intros H.
      assert (E : runAll password rules = Ret (map (fun _ => "") rules)).
      { apply runAll_Ret. clear Hrun.
        induction H as [|rule rest Hd _ IH]; simpl; constructor; assumption. }
      rewrite E. simpl. f_equal.
      apply filter_nonEmpty_nil. apply Forall_forall.
      intros d Hin. apply in_map_iff in Hin. now destruct Hin as [_ [<- _]].
  - intros World rules w. apply validatePassword_stateless.
Qed.

Lemma runAll_app (password : string) (rules1 rules2 : list Validator) :
  runAll password (rules1 ++ rules2)
  = (d1 <- runAll password rules1 ;; d2 <- runAll password rules2 ;; ret (d1 ++ d2)).
Proof.
  induction rules1 as [|rule rest IH]; simpl.
  - now destruct (runAll password rules2).
  - destruct (rule password) as [d|]; simpl; [|reflexivity].
    rewrite IH. destruct (runAll password rest); simpl; [|reflexivity].
    now destruct (runAll password rules2).
Qed.

(** X17: rules appended to a list add their diagnostics after those of
    the rules registered before, whatever these found. *)
Lemma validatePassword_app (password : string) (rules1 rules2 : list Validator) :
  validatePassword password (rules1 ++ rules2)
  = (d1 <- validatePassword password rules1 ;;
     d2 <- validatePassword password rules2 ;;
     ret (d1 ++ d2)).
Proof.
  rewrite !validatePassword_runAll, runAll_app.
  destruct (runAll password rules1); simpl; [|reflexivity].
  destruct (runAll password rules2); simpl; [|reflexivity].
  now rewrite filter_app.
Qed.

Lemma go_rel_trans {A : Type} (R : A -> A -> Prop) (x y z : go A) :
  (forall a b c, R a b -> R b c -> R a c) ->
  go_rel R x y -> go_rel R y z -> go_rel R x z.
Proof.
  intros HR. destruct x, y, z; simpl; try tauto. apply HR.
Qed.

Lemma Permutation_filter_nonEmpty (d1 d2 : list string) :
  Permutation d1 d2 -> Permutation (filter nonEmpty d1) (filter nonEmpty d2).
Proof.
  induction 1 as [|d l l' _ IH|d d' l|l l' l'' _ IH1 _ IH2]; simpl.
  - constructor.
  - destruct (nonEmpty d); [now constructor|assumption].
  - destruct (nonEmpty d), (nonEmpty d'); try apply Permutation_refl.
    apply perm_swap.
  - now apply Permutation_trans with (filter nonEmpty l').
Qed.

Lemma runAll_Permutation (password : string) (rules1 rules2 : list Validator) :
  Permutation rules1 rules2 ->
  go_rel (@Permutation string) (runAll password rules1) (runAll password rules2).
Proof.
  induction 1 as [|rule l l' _ IH|r1 r2 l|l l' l'' _ IH1 _ IH2]; simpl.
  - constructor.
  - destruct (rule password); simpl; [|exact I].
    destruct (runAll password l), (runAll password l'); simpl in *; try tauto.
    now constructor.
  - destruct (r1 password), (r2 password); simpl; try exact I.
    destruct (runAll password l); simpl; [|exact I].
    apply perm_swap.
  - eapply go_rel_trans; eauto. intros a b c. apply Permutation_trans.
Qed.

(** C6: rule lists that are permutations of each other give, on every
    input, the same diagnostics up to order (and panic together). *)
Theorem validatePassword_permutation (password : string) (rules1 rules2 : list Validator) :
  Permutation rules1 rules2 ->
  go_rel (fun d1 d2 => Permutation d1 d2 /\ sameDiagnostics d1 d2)
         (validatePassword password rules1) (validatePassword password rules2).
Proof.
  intros HP.
  rewrite !validatePassword_runAll.
  pose proof (runAll_Permutation password rules1 rules2 HP) as H.
  destruct (runAll password rules1) as [d1|], (runAll password rules2) as [d2|];
    simpl in *; try tauto.
  assert (HF : Permutation (filter nonEmpty d1) (filter nonEmpty d2))
    by now apply Permutation_filter_nonEmpty.
  split; [exact HF|].
  intros d. split; apply Permutation_in; [|apply Permutation_sym]; exact HF.
Qed.

Lemma validatePassword_permutation_witness :
  go_rel (fun d1 d2 => Permutation d1 d2 /\ sameDiagnostics d1 d2)
         (validatePassword "aaa" [lengthValidator; spaceValidator; repeatingCharsValidator])
         (validatePassword "aaa" [repeatingCharsValidator; lengthValidator; spaceValidator]).
Proof.
  apply validatePassword_permutation.
  apply Permutation_sym.
  exact (Permutation_cons_append [lengthValidator; spaceValidator] repeatingCharsValidator).
Defined.

(** C7: against an unchanged list of rules of this program, two calls of
    [validatePassword] on the same input, one after the other and in any
    world, return the same sequence, the one the input and the rules
    determine, and leave the world as it was. *)
Theorem validatePassword_repeatable (World : Type) (password : string)
        (fs : list Validator) (w : World) :
  runStateT (validateTwice World password (map (statelessRule World) fs)) w
  = (r <- validatePassword password fs ;; ret ((r, r), w)).
Proof.
  unfold validateTwice. simpl. rewrite validatePassword_stateless.
  destruct (validatePassword password fs) as [r|] eqn:E; simpl; [|reflexivity].
  now rewrite validatePassword_stateless, E.
Qed.

(** The statelessness of the rules is what makes repeated calls agree: a
    rule that keeps a counter answers the second call differently. *)
Remark countingRule_not_repeatable :
  runStateT (validateTwice nat "secret" [countingRule]) 0%nat
  = Ret (([], ["seen before"]), 2%nat).
Proof. reflexivity. Qed.

(* ===================================================================== *)
(** ** Bytes and runes *)
(* ===================================================================== *)

Lemma byte_val_range (b : ascii) : 0 <= byte_val b < 256.
Proof.
  unfold byte_val. pose proof (N_ascii_bounded b). lia.
Qed.

Lemma byte_val_inj (a b : ascii) : byte_val a = byte_val b -> a = b.
Proof.
  unfold byte_val. intros H. apply N2Z.inj in H.
  rewrite <- (ascii_N_embedding a), <- (ascii_N_embedding b). now f_equal.
Qed.

Lemma bytes_length (s : string) : List.length (bytes s) = String.length s.
Proof. induction s; simpl; congruence. Qed.

Lemma skip_length (n : nat) (s : string) :
  String.length (skip n s) = (String.length s - n)%nat.
Proof.
  revert s. induction n as [|n IH]; intros [|c s]; simpl; auto.
Qed.

Lemma bytes_skip (n : nat) (s : string) : bytes (skip n s) = skipn n (bytes s).
Proof.
  revert s. induction n as [|n IH]; intros [|c s]; simpl; auto.
Qed.

(** What [decoderune] returns at a byte that is not ASCII: a rune that is
    not ASCII either, and a width that covers non-ASCII bytes only. *)
Lemma decoderune_spec (c0 : ascii) (t : string) :
  128 <= byte_val c0 ->
  128 <= fst (utf8.decoderune (String c0 t))
  /\ (1 <= snd (utf8.decoderune (String c0 t)) <= S (String.length t))%nat
  /\ Forall (fun b => 128 <= b)
            (firstn (snd (utf8.decoderune (String c0 t))) (bytes (String c0 t))).
Proof.
  intros H0. unfold utf8.decoderune. cbv zeta.
  repeat match goal with
         | |- context [if ?c then _ else _] => destruct c eqn:?
         | |- context [match ?s with EmptyString => _ | String _ _ => _ end] =>
           destruct s
         end;
    cbn [fst snd firstn bytes String.length];
    utf8_consts; bool_hyps;
    (split; [lia|split; [lia|]]);
    repeat (constructor; try lia).
Qed.

Lemma step_spec (c0 : ascii) (t : string) :
  (byte_val c0 < 128 /\ utf8.step (String c0 t) = (byte_val c0, 1%nat))
  \/ (128 <= byte_val c0
      /\ 128 <= fst (utf8.step (String c0 t))
      /\ (1 <= snd (utf8.step (String c0 t)) <= S (String.length t))%nat
      /\ Forall (fun b => 128 <= b)
                (firstn (snd (utf8.step (String c0 t))) (bytes (String c0 t)))).
Proof.
  unfold utf8.step. destruct (byte_val c0 <? utf8.runeSelf) eqn:E;
    utf8_consts; bool_hyps.
  - left. now split.
  - right. split; [lia|]. apply decoderune_spec. lia.
Qed.

Lemma step_size (c0 : ascii) (t : string) :
  (1 <= snd (utf8.step (String c0 t)) <= S (String.length t))%nat.
Proof.
  destruct (step_spec c0 t) as [[_ ->]|(_ & _ & H & _)]; [simpl; lia|exact H].
Qed.

(** The fuel of [utf8.range] never runs out before the string does. *)
Lemma range_fuel (n : nat) :
  forall (m : nat) (s : string),
    (String.length s <= n)%nat -> (String.length s <= m)%nat ->
    utf8.range n s = utf8.range m s.
Proof.
  induction n as [|n IH]; intros m [|c0 t] Hn Hm;
    cbn [utf8.range String.length] in *; try lia; try (now destruct m).
  destruct m as [|m]; [lia|]. cbn [utf8.range].
  pose proof (step_size c0 t) as Hs.
  destruct (utf8.step (String c0 t)) as [r size]. simpl in Hs.
  f_equal. apply IH; rewrite skip_length; cbn [String.length]; lia.
Qed.

Lemma runes_unfold (c0 : ascii) (t : string) :
  utf8.runes (String c0 t)
  = fst (utf8.step (String c0 t))
    :: utf8.runes (skip (snd (utf8.step (String c0 t))) (String c0 t)).
Proof.
  unfold utf8.runes.
  change (utf8.range (String.length (String c0 t)) (String c0 t))
    with (let '(r, size) := utf8.step (String c0 t) in
          r :: utf8.range (String.length t) (skip size (String c0 t))).
  pose proof (step_size c0 t) as Hs.
  destruct (utf8.step (String c0 t)) as [r size]. simpl in Hs. cbn [fst snd].
  f_equal. apply range_fuel; rewrite ?skip_length; cbn [String.length]; lia.
Qed.

(** On pure ASCII the runes of a string are its bytes. *)
Lemma runes_asciiOnly (s : string) : asciiOnly s -> utf8.runes s = bytes s.
Proof.
  unfold asciiOnly.
  induction s as [|c0 t IH]; intros H; [reflexivity|].
  simpl in H. inversion H as [|? ? Hc Ht]; subst.
  rewrite runes_unfold.
  destruct (step_spec c0 t) as [[_ ->]|[Hge _]]; [|lia].
  simpl. f_equal. now apply IH.
Qed.

Lemma asciiOnly_len (s : string) :
  asciiOnly s -> utf8.RuneCountInString s = len s.
Proof.
  intros Ha. unfold utf8.RuneCountInString, len.
  now rewrite (runes_asciiOnly s Ha), bytes_length.
Qed.

(** An ASCII character is in a string as a rune exactly when it is there
    as a byte: the bytes of a multi-byte encoding are all above 127, and
    so is the rune it decodes to (or the error rune it is replaced by). *)
Lemma runes_ascii_In (r : Z) :
  r < 128 -> forall s, In r (utf8.runes s) <-> In r (bytes s).
Proof.
  intros Hr s. remember (String.length s) as n eqn:Hn.
  assert (Hle : (String.length s <= n)%nat) by lia. clear Hn.
  revert s Hle. induction n as [|n IH]; intros [|c0 t] Hle; simpl in Hle;
    try lia; try reflexivity.
  rewrite runes_unfold.
  destruct (step_spec c0 t) as [[_ ->]|(Hge & Hr0 & Hsize & Hall)].
  - simpl. rewrite IH by lia. reflexivity.
  - set (size := snd (utf8.step (String c0 t))) in *.
    set (r0 := fst (utf8.step (String c0 t))) in *.
    rewrite <- (firstn_skipn size (bytes (String c0 t))) at 1.
    rewrite in_app_iff, <- bytes_skip. cbn [In].
    rewrite IH by (rewrite skip_length; cbn [String.length]; lia).
    rewrite Forall_forall in Hall. split.
    + intros [H|H]; [lia|now right].
    + intros [H|H]; [apply Hall in H; lia|now right].
Qed.

(* ===================================================================== *)
(** ** The rules one by one *)
(* ===================================================================== *)

(** What a rule contributes is in what the engine returns. *)
Lemma contributes_validatePassword (rule : Validator) (rules : list Validator)
      (password d : string) (ds : list string) :
  In rule rules -> contributes rule password d ->
  validatePassword password rules = Ret ds -> In d ds.
Proof.
  intros Hin [Hd Hne] Hv.
  rewrite validatePassword_runAll in Hv.
  destruct (runAll password rules) as [all|] eqn:E; [|discriminate].
  simpl in Hv. injection Hv as <-.
  apply runAll_Ret in E. apply filter_In. split.
  - clear Hne. induction E as [|r d' rest all' Hr _ IH]; [contradiction|].
    destruct Hin as [->|Hin].
    + left. congruence.
    + right. now apply IH.
  - unfold nonEmpty. apply negb_true_iff. now apply String.eqb_neq.
Qed.

Lemma lengthValidator_contributes (password : string) :
  len password < 8 <-> contributes lengthValidator password errLength.
Proof.
  unfold contributes, lengthValidator, errLength.
  destruct (Z.ltb_spec (len password) 8) as [H|H]; simpl; split.
  - intros _. split; [reflexivity|discriminate].
  - intros _. exact H.
  - lia.
  - intros [[=] _].
Qed.

Lemma lengthValidator_silent (password : string) :
  8 <= len password <-> silent lengthValidator password.
Proof.
  unfold silent, lengthValidator, errLength.
  destruct (Z.ltb_spec (len password) 8) as [H|H]; simpl; split.
  - lia.
  - discriminate.
  - reflexivity.
  - intros _. exact H.
Qed.

(** C2: the minimum-length rule contributes its diagnostic exactly when
    the length of the input, [len(password)], is below 8, and nothing
    exactly when it is 8 or more. *)
Theorem lengthValidator_spec (password : string) :
  (len password < 8 <-> contributes lengthValidator password errLength)
  /\ (8 <= len password <-> silent lengthValidator password).
Proof.
  split.
  - apply lengthValidator_contributes.
  - apply lengthValidator_silent.
Qed.

(** C9: the minimum-length rule measures bytes, not code points: it is
    silent exactly when the input has 8 bytes or more, and three euro
    signs, which are three characters in nine bytes, get no diagnostic. *)
Theorem lengthValidator_counts_bytes :
  (forall password,
      silent lengthValidator password <-> 8 <= Z.of_nat (List.length (bytes password)))
  /\ utf8.runes euro3 = [8364; 8364; 8364]
  /\ utf8.RuneCountInString euro3 = 3
  /\ len euro3 = 9
  /\ (exists password,
         utf8.RuneCountInString password < 8 /\ silent lengthValidator password).
Proof.
  split; [|split; [reflexivity|split; [reflexivity|split; [reflexivity|]]]].
  - intros password. rewrite bytes_length.
    symmetry. apply lengthValidator_silent.
  - exists euro3. split; reflexivity.
Qed.

Lemma inClass_In (re : regexp.Regexp) (r : rune) :
  regexp.inClass re r = true <-> In r re.
Proof.
  unfold regexp.inClass. rewrite existsb_exists. split.
  - intros [x [Hin Heq]]. apply Z.eqb_eq in Heq. now subst.
  - intros Hin. exists r. split; [assumption|apply Z.eqb_refl].
Qed.

Lemma MatchString_spec (re : regexp.Regexp) (s : string) :
  regexp.MatchString re s = true <-> exists r, In r (utf8.runes s) /\ In r re.
Proof.
  unfold regexp.MatchString. rewrite existsb_exists.
  split; intros [r [H1 H2]]; exists r; split; try assumption;
    now apply inClass_In.
Qed.

Lemma specialChars_ascii (r : rune) : In r specialChars -> r < 128.
Proof.
  unfold specialChars. simpl. intuition lia.
Qed.

(** C5: the special-character rule contributes its diagnostic exactly when
    no character of the input is in the special-character set, and
    nothing exactly when some character is; the characters can be read as
    code points or as bytes, the set being ASCII. *)
Theorem specialCharValidator_spec (password : string) :
  ((forall r, In r (utf8.runes password) -> ~ In r specialChars)
   <-> contributes specialCharValidator password errSpecialChar)
  /\ ((exists r, In r (utf8.runes password) /\ In r specialChars)
      <-> silent specialCharValidator password)
  /\ ((exists r, In r (utf8.runes password) /\ In r specialChars)
      <-> (exists b, In b (bytes password) /\ In b specialChars)).
Proof.
  unfold contributes, silent, specialCharValidator, errSpecialChar. cbv zeta.
  pose proof (MatchString_spec specialChars password) as HM.
  destruct (regexp.MatchString specialChars password); simpl.
  - assert (Hex : exists r, In r (utf8.runes password) /\ In r specialChars)
      by now apply HM.
    split; [|split].
    + split.
      * intros Hno. destruct Hex as [r [H1 H2]]. now apply Hno in H1.
      * intros [[=] _].
    + tauto.
    + clear. split; intros [r [H1 H2]]; exists r; split; try assumption;
        apply (runes_ascii_In r (specialChars_ascii r H2)); assumption.
  - assert (Hno : ~ exists r, In r (utf8.runes password) /\ In r specialChars).
    { intros Hex. apply HM in Hex. discriminate. }
    split; [|split].
    + split.
      * intros _. split; [reflexivity|discriminate].
      * intros _ r H1 H2. apply Hno. now exists r.
    + split; [tauto|discriminate].
    + clear. split; intros [r [H1 H2]]; exists r; split; try assumption;
        apply (runes_ascii_In r (specialChars_ascii r H2)); assumption.
Qed.

Lemma Contains_space (s : string) :
  strings.Contains s " " = true <-> In 32 (bytes s).
Proof.
  induction s as [|c t IH]; cbn [strings.Contains prefix bytes In].
  - split; [discriminate|contradiction].
  - destruct (ascii_dec " " c) as [<-|Hne]; cbn [orb].
    + split; [now left|]. intros _. now destruct t.
    + rewrite IH. split; [now right|].
      intros [H|H]; [|assumption].
      exfalso. apply Hne. apply byte_val_inj. now rewrite H.
Qed.

(** C10: the no-whitespace rule contributes its diagnostic exactly when
    the input contains the space U+0020 (as a byte or, which is the same,
    as a character) and is silent on every input without it, whatever
    other white space the input holds. *)
Theorem spaceValidator_spec (password : string) :
  (In 32 (bytes password) <-> contributes spaceValidator password errSpace)
  /\ (~ In 32 (bytes password) <-> silent spaceValidator password)
  /\ (In 32 (bytes password) <-> In 32 (utf8.runes password)).
Proof.
  unfold contributes, silent, spaceValidator, errSpace.
  pose proof (Contains_space password) as HC.
  destruct (strings.Contains password " "); simpl; split; [|split| |split];
    try (symmetry; apply runes_ascii_In; lia).
  - split; [intros _; split; [reflexivity|discriminate]|intros _; now apply HC].
  - split; [intros H; exfalso; apply H; now apply HC|discriminate].
  - split; [intros H; apply HC in H; discriminate|intros [[=] _]].
  - split; [reflexivity|]. intros _ H. apply HC in H. discriminate.
Qed.

(** Tabs, line ends and a no-break space do not trigger the rule. *)
Example spaceValidator_tabsAndNewlines :
  bytes tabsAndNewlines = [9; 97; 10; 13; 194; 160; 98]
  /\ utf8.runes tabsAndNewlines = [9; 97; 10; 13; 160; 98]
  /\ silent spaceValidator tabsAndNewlines.
Proof. repeat split. Qed.

(* ===================================================================== *)
(** ** The repeat-run rule *)
(* ===================================================================== *)

Lemma get_Some (s : string) :
  forall n, (n < String.length s)%nat -> exists b, String.get n s = Some b.
Proof.
  induction s as [|c t IH]; intros n Hn; simpl in Hn; [lia|].
  destruct n as [|n]; simpl; [now exists c|]. apply IH. lia.
Qed.

Lemma index_Ret (s : string) (i : Z) :
  0 <= i < len s ->
  exists b, index s i = Ret b /\ String.get (Z.to_nat i) s = Some b.
Proof.
  intros Hi. unfold index.
  destruct (Z.leb_spec 0 i); [|lia].
  destruct (Z.ltb_spec i (len s)); [|lia]. simpl.
  destruct (get_Some s (Z.to_nat i)) as [b Hb]; [unfold len in *; lia|].
  exists b. now rewrite Hb.
Qed.

Lemma repeatingCharsBody_spec (password : string) (i : Z) :
  2 <= i < len password ->
  (tripleAt password i /\ repeatingCharsBody password i = Ret (Return errRepeating))
  \/ (~ tripleAt password i /\ repeatingCharsBody password i = Ret Continue).
Proof.
  intros Hi. unfold repeatingCharsBody, tripleAt.
  destruct (index_Ret password i) as [a [-> Ha]]; [lia|].
  destruct (index_Ret password (i - 1)) as [b [-> Hb]]; [lia|].
  destruct (index_Ret password (i - 2)) as [c [-> Hc]]; [lia|].
  cbn [bind Monad_go ret].
  destruct (Ascii.eqb_spec a b) as [->|Hab].
  - destruct (Ascii.eqb_spec b c) as [->|Hbc].
    + left. split; [|reflexivity]. now exists c.
    + right. split; [|reflexivity]. intros [x (H2 & H1 & _)]. congruence.
  - right. split; [|reflexivity]. intros [x (_ & H1 & H0)]. congruence.
Qed.

(** The loop from index [i] on: it never panics, and it reports a repeat
    exactly when one ends at some index from [i] on. *)
Lemma repeatingCharsLoop_spec (password : string) (i : Z) :
  2 <= i ->
  ((exists j, i <= j < len password /\ tripleAt password j)
   /\ repeatingCharsLoop password i = Ret errRepeating)
  \/ ((forall j, i <= j < len password -> ~ tripleAt password j)
      /\ repeatingCharsLoop password i = Ret "").
Proof.
  funelim (repeatingCharsLoop password i); intros Hi.
  - (* i >= len(password): the loop is over *)
    right. split; [intros j Hj; lia|reflexivity].
  - (* the body returns *)
    destruct (repeatingCharsBody_spec password i) as [[Ht Hb]|[_ Hb]]; [lia| |congruence].
    left. rewrite Heq in Hb. injection Hb as ->.
    split; [|reflexivity]. exists i. split; [lia|assumption].
  - (* the body falls through: next index *)
    destruct (repeatingCharsBody_spec password i) as [[_ Hb]|[Ht _]]; [lia|congruence|].
    destruct H as [[[j [Hj Htj]] Hr]|[Hno Hr]]; [lia| |].
    + left. split; [|assumption]. exists j. split; [lia|assumption].
    + right. split; [|assumption].
      intros j Hj. destruct (Z.eq_dec j i) as [->|Hne]; [assumption|].
      apply Hno. lia.
  - (* the body cannot panic inside the bounds *)
    destruct (repeatingCharsBody_spec password i) as [[_ Hb]|[_ Hb]]; [lia| |]; congruence.
Qed.

Lemma length_string_app (s1 s2 : string) :
  String.length (s1 ++ s2)%string = (String.length s1 + String.length s2)%nat.
Proof. induction s1; simpl; congruence. Qed.

Lemma get_string_app (pre t : string) (k : nat) :
  String.get (String.length pre + k) (pre ++ t)%string = String.get k t.
Proof. induction pre; simpl; auto. Qed.

Lemma get_split (s : string) :
  forall (n : nat) (b : ascii),
    String.get n s = Some b ->
    exists pre post, s = (pre ++ String b post)%string /\ String.length pre = n.
Proof.
  induction s as [|c t IH]; intros n b H; simpl in H; [discriminate|].
  destruct n as [|n].
  - injection H as ->. now exists "", t.
  - destruct (IH n b H) as (pre & post & -> & Hlen).
    exists (String c pre), post. simpl. now rewrite Hlen.
Qed.

Lemma get_head (s : string) (b : ascii) :
  String.get 0 s = Some b -> exists t, s = String b t.
Proof.
  destruct s as [|c t]; simpl; [discriminate|].
  intros [= ->]. now exists t.
Qed.

(** A repeat of three bytes, by position and by decomposition. *)
Lemma byteRun3_tripleAt (s : string) :
  byteRun3 s <-> exists j, 2 <= j < len s /\ tripleAt s j.
Proof.
  unfold byteRun3, tripleAt, len. split.
  - intros (pre & b & post & ->).
    exists (Z.of_nat (String.length pre) + 2).
    rewrite length_string_app. cbn [String.length]. split; [lia|].
    exists b.
    replace (Z.to_nat (Z.of_nat (String.length pre) + 2 - 2))
      with (String.length pre + 0)%nat by lia.
    replace (Z.to_nat (Z.of_nat (String.length pre) + 2 - 1))
      with (String.length pre + 1)%nat by lia.
    replace (Z.to_nat (Z.of_nat (String.length pre) + 2))
      with (String.length pre + 2)%nat by lia.
    rewrite !get_string_app. now repeat split.
  - intros (j & Hj & b & H2 & H1 & H0).
    destruct (get_split s _ b H2) as (pre & post & -> & Hlen).
    replace (Z.to_nat (j - 1)) with (String.length pre + 1)%nat in H1 by lia.
    replace (Z.to_nat j) with (String.length pre + 2)%nat in H0 by lia.
    rewrite get_string_app in H1, H0. cbn [String.get] in H1, H0.
    destruct (get_head post b H1) as [post1 ->]. cbn [String.get] in H0.
    destruct (get_head post1 b H0) as [post2 ->].
    now exists pre, b, post2.
Qed.

(** What the rule does, byte for byte: it never panics, it returns its
    diagnostic exactly on the inputs with a byte three times in a row, and
    the empty string on all others. *)
Lemma repeatingCharsValidator_bytes (password : string) :
  (byteRun3 password <-> contributes repeatingCharsValidator password errRepeating)
  /\ (~ byteRun3 password <-> silent repeatingCharsValidator password).
Proof.
  unfold contributes, silent, repeatingCharsValidator.
  rewrite byteRun3_tripleAt.
  destruct (repeatingCharsLoop_spec password 2) as [[Hex ->]|[Hno ->]]; [lia| |].
  - split; split.
    + intros _. split; [reflexivity|discriminate].
    + intros _. exact Hex.
    + tauto.
    + discriminate.
  - assert (Hn : ~ exists j, 2 <= j < len password /\ tripleAt password j).
    { intros [j [Hj Ht]]. now apply (Hno j). }
    split; split.
    + tauto.
    + intros [[=] _].
    + reflexivity.
    + intros _. exact Hn.
Qed.

Lemma repeatingCharsValidator_total (password : string) :
  exists d, repeatingCharsValidator password = Ret d.
Proof.
  unfold repeatingCharsValidator.
  destruct (repeatingCharsLoop_spec password 2) as [[_ ->]|[_ ->]]; eauto; lia.
Qed.


Lemma bytes_string_app (s1 s2 : string) :
  bytes (s1 ++ s2)%string = bytes s1 ++ bytes s2.
Proof. induction s1; simpl; congruence. Qed.

Lemma bytes_split (l1 : list Z) :
  forall (s : string) (l2 : list Z),
    bytes s = l1 ++ l2 ->
    exists s1 s2, s = (s1 ++ s2)%string /\ bytes s1 = l1 /\ bytes s2 = l2.
Proof.
  induction l1 as [|x l1 IH]; intros s l2 H.
  - now exists "", s.
  - destruct s as [|c t]; simpl in H; [discriminate|].
    injection H as Hx Ht.
    destruct (IH t l2 Ht) as (s1 & s2 & -> & <- & <-).
    exists (String c s1), s2. simpl. now rewrite Hx.
Qed.

(** On pure ASCII input a repeated byte is a repeated character. *)
Lemma asciiOnly_runs (password : string) :
  asciiOnly password -> (runeRun3 password <-> byteRun3 password).
Proof.
  intros Ha. unfold runeRun3, byteRun3. rewrite (runes_asciiOnly _ Ha). split.
  - intros (pre & r & post & H).
    destruct (bytes_split pre _ _ H) as (s1 & s2 & -> & _ & H2).
    destruct s2 as [|a [|b [|c post']]]; simpl in H2; try discriminate.
    injection H2 as Hx Hy Hz _.
    assert (a = c) by (apply byte_val_inj; congruence).
    assert (b = c) by (apply byte_val_inj; congruence).
    subst. now exists s1, c, post'.
  - intros (pre & b & post & ->).
    exists (bytes pre), (byte_val b), (bytes post).
    now rewrite bytes_string_app.
Qed.

(** C3: the rule compares bytes where the claim speaks of characters.
    Three euro signs in a row are one character repeated three times, yet
    no byte of their encoding E2 82 AC E2 82 AC E2 82 AC is followed twice
    by itself, and the rule stays silent. *)
Theorem repeatingCharsValidator_misses_characters :
  utf8.runes euro3 = [8364; 8364; 8364]
  /\ runeRun3 euro3
  /\ ~ byteRun3 euro3
  /\ silent repeatingCharsValidator euro3.
Proof.
  assert (Hs : silent repeatingCharsValidator euro3) by reflexivity.
  split; [reflexivity|split; [|split]].
  - now exists [], 8364, [].
  - now apply repeatingCharsValidator_bytes.
  - exact Hs.
Qed.




(* ===================================================================== *)
(** ** The seven rules together *)
(* ===================================================================== *)

(** C8: with the seven rules in the order of [main], the input "aaa" gets
    exactly five diagnostics: length, upper case, special character, digit
    and repeat, and neither the one about spaces nor the one about common
    passwords. *)
Theorem validatePassword_aaa (Upper Digit : rune -> bool) :
  exists ds,
    validatePassword "aaa" (validators Upper Digit) = Ret ds
    /\ ds = [errLength; errUppercase; errSpecialChar; errDigit; errRepeating]
    /\ List.length ds = 5%nat
    /\ ~ In errSpace ds
    /\ ~ In errCommon ds.
Proof.
  eexists. split; [reflexivity|split; [reflexivity|split; [reflexivity|]]].
  split; intros H; simpl in H; unfold errSpace, errCommon in H;
    repeat (destruct H as [H|H]; [discriminate|]); exact H.
Qed.

Lemma uppercaseLoop_total (Upper : rune -> bool) (rs : list rune) :
  exists d, uppercaseLoop Upper rs = Ret d.
Proof.
  induction rs as [|c rs IH]; simpl; [eauto|].
  destruct (unicode.IsUpper Upper c); eauto.
Qed.

Lemma digitLoop_total (Digit : rune -> bool) (rs : list rune) :
  exists d, digitLoop Digit rs = Ret d.
Proof.
  induction rs as [|c rs IH]; simpl; [eauto|].
  destruct (unicode.IsDigit Digit c); eauto.
Qed.

Lemma commonPasswordLoop_total (password : string) (l : list string) :
  exists d, commonPasswordLoop password l = Ret d.
Proof.
  induction l as [|common l IH]; simpl; [eauto|].
  destruct (String.eqb password common); eauto.
Qed.

(** No input makes the rules of [main] panic. *)
Lemma validatePassword_total (Upper Digit : rune -> bool) (password : string) :
  exists ds, validatePassword password (validators Upper Digit) = Ret ds.
Proof.
  rewrite validatePassword_runAll.
  unfold validators. cbn [runAll].
  unfold lengthValidator at 1, specialCharValidator at 1, spaceValidator at 1,
    uppercaseValidator at 1, digitValidator at 1, commonPasswordValidator at 1.
  destruct (uppercaseLoop_total Upper (utf8.runes password)) as [d2 ->].
  destruct (digitLoop_total Digit (utf8.runes password)) as [d4 ->].
  destruct (commonPasswordLoop_total password commonPasswords) as [d6 ->].
  destruct (repeatingCharsValidator_total password) as [d7 ->].
  destruct (len password <? 8);
    destruct (negb (regexp.MatchString specialChars password));
    destruct (strings.Contains password " ");
    cbn [bind ret Monad_go]; eauto.
Qed.

(** The other scenarios of the notes. *)
Example validatePassword_Password123 (Upper Digit : rune -> bool) :
  validatePassword "Password123!" (validators Upper Digit) = Ret [].
Proof. reflexivity. Qed.

Example validatePassword_password (Upper Digit : rune -> bool) :
  validatePassword "password" (validators Upper Digit)
  = Ret [errUppercase; errSpecialChar; errDigit; errCommon].
Proof. reflexivity. Qed.

Example validatePassword_password123 (Upper Digit : rune -> bool) :
  validatePassword "password123" (validators Upper Digit)
  = Ret [errUppercase; errSpecialChar].
Proof. reflexivity. Qed.

(** [checkLength] of main.go is not one of the rules: it asks for five
    bytes where the minimum-length rule asks for eight. *)
Remark checkLength_threshold (password : string) :
  checkLength password = true <-> 5 <= len password.
Proof. unfold checkLength. apply Z.leb_le. Qed.

Remark checkLength_hello :
  checkLength "hello" = true /\ contributes lengthValidator "hello" errLength.
Proof. split; [reflexivity|]. now apply lengthValidator_contributes. Qed.

(* ===================================================================== *)
(** ** The rules the claims leave out *)
(* ===================================================================== *)

Lemma uppercaseLoop_existsb (Upper : rune -> bool) (rs : list rune) :
  uppercaseLoop Upper rs
  = Ret (if existsb (unicode.IsUpper Upper) rs then "" else errUppercase).
Proof.
  induction rs as [|c rs IH]; simpl; [reflexivity|].
  destruct (unicode.IsUpper Upper c); [reflexivity|exact IH].
Qed.

Lemma digitLoop_existsb (Digit : rune -> bool) (rs : list rune) :
  digitLoop Digit rs
  = Ret (if existsb (unicode.IsDigit Digit) rs then "" else errDigit).
Proof.
  induction rs as [|c rs IH]; simpl; [reflexivity|].
  destruct (unicode.IsDigit Digit c); [reflexivity|exact IH].
Qed.

Lemma existsb_false_forall {A : Type} (f : A -> bool) (l : list A) :
  existsb f l = false <-> forall x, In x l -> f x = false.
Proof.
  induction l as [|a l IH]; simpl.
  - split; [contradiction|reflexivity].
  - rewrite orb_false_iff, IH. split.
    + intros [Ha Hl] x [<-|Hx]; auto.
    + intros H. split; [apply H; now left|intros x Hx; apply H; now right].
Qed.

Lemma uppercaseValidator_silent (Upper : rune -> bool) (password : string) :
  silent (uppercaseValidator Upper) password
  <-> exists r, In r (utf8.runes password) /\ unicode.IsUpper Upper r = true.
Proof.
  unfold silent, uppercaseValidator. rewrite uppercaseLoop_existsb.
  rewrite <- existsb_exists.
  destruct (existsb (unicode.IsUpper Upper) (utf8.runes password)).
  - split; reflexivity.
  - unfold errUppercase. split; discriminate.
Qed.

Lemma uppercaseValidator_contributes (Upper : rune -> bool) (password : string) :
  contributes (uppercaseValidator Upper) password errUppercase
  <-> forall r, In r (utf8.runes password) -> unicode.IsUpper Upper r = false.
Proof.
  unfold contributes, uppercaseValidator. rewrite uppercaseLoop_existsb.
  rewrite <- existsb_false_forall.
  destruct (existsb (unicode.IsUpper Upper) (utf8.runes password)).
  - unfold errUppercase. split; [intros [[=] _]|discriminate].
  - split; [reflexivity|]. intros _. split; [reflexivity|discriminate].
Qed.

Lemma IsUpper_ascii (Upper : rune -> bool) (r : rune) :
  0 <= r < 128 -> (unicode.IsUpper Upper r = true <-> 65 <= r <= 90).
Proof.
  intros Hr. unfold unicode.IsUpper, unicode.MaxLatin1, unicode.latin1Upper.
  destruct (Z.leb_spec 0 r); [|lia]. destruct (Z.leb_spec r 255); [|lia].
  cbn [andb].
  rewrite !orb_true_iff, !andb_true_iff, !Z.leb_le. lia.
Qed.

Lemma IsDigit_ascii (Digit : rune -> bool) (r : rune) :
  r < 128 -> (unicode.IsDigit Digit r = true <-> 48 <= r <= 57).
Proof.
  intros Hr. unfold unicode.IsDigit, unicode.MaxLatin1.
  destruct (Z.leb_spec r 255); [|lia].
  rewrite andb_true_iff, !Z.leb_le. lia.
Qed.

Lemma bytes_nonneg (s : string) (b : Z) : In b (bytes s) -> 0 <= b < 256.
Proof.
  induction s as [|c t IH]; simpl; [contradiction|].
  intros [<-|H]; [apply byte_val_range|now apply IH].
Qed.

(** X1: the upper-case rule is silent exactly when some code point of
    the input is an upper-case letter, and contributes its diagnostic
    exactly when none is.  A byte 'A'..'Z' anywhere in the input, valid
    UTF-8 or not, is enough to silence it, and on ASCII input nothing
    else does. *)
Theorem uppercaseValidator_spec (Upper : rune -> bool) (password : string) :
  (silent (uppercaseValidator Upper) password
   <-> exists r, In r (utf8.runes password) /\ unicode.IsUpper Upper r = true)
  /\ (contributes (uppercaseValidator Upper) password errUppercase
      <-> forall r, In r (utf8.runes password) -> unicode.IsUpper Upper r = false)
  /\ ((exists b, In b (bytes password) /\ 65 <= b <= 90)
      -> silent (uppercaseValidator Upper) password)
  /\ (asciiOnly password -> silent (uppercaseValidator Upper) password
      -> exists b, In b (bytes password) /\ 65 <= b <= 90).
Proof.
  split; [apply uppercaseValidator_silent|].
  split; [apply uppercaseValidator_contributes|split].
  - intros [b [Hin Hb]]. apply uppercaseValidator_silent.
    exists b. split; [apply runes_ascii_In; [lia|assumption]|].
    apply IsUpper_ascii; lia.
  - intros Ha Hs. apply uppercaseValidator_silent in Hs.
    destruct Hs as [r [Hin Hr]]. rewrite (runes_asciiOnly _ Ha) in Hin.
    exists r. split; [assumption|].
    unfold asciiOnly in Ha. rewrite Forall_forall in Ha.
    apply (IsUpper_ascii Upper); [|assumption].
    pose proof (bytes_nonneg _ _ Hin). specialize (Ha r Hin). simpl in Ha. lia.
Qed.

Lemma uppercaseValidator_spec_witness :
  (exists b, In b (bytes "passWord") /\ 65 <= b <= 90)
  /\ asciiOnly "passWord"
  /\ silent (uppercaseValidator (fun _ => false)) "passWord"
  /\ exists b, In b (bytes "passWord") /\ 65 <= b <= 90.
Proof.
  assert (Hex : exists b, In b (bytes "passWord") /\ 65 <= b <= 90).
  { exists 87. split; [simpl; tauto|lia]. }
  assert (Ha : asciiOnly "passWord").
  { unfold asciiOnly. simpl. repeat constructor. }
  pose proof (uppercaseValidator_spec (fun _ => false) "passWord") as (_ & _ & H3 & H4).
  split; [exact Hex|split; [exact Ha|split]].
  - exact (H3 Hex).
  - exact (H4 Ha (H3 Hex)).
Defined.

Lemma digitValidator_silent (Digit : rune -> bool) (password : string) :
  silent (digitValidator Digit) password
  <-> exists r, In r (utf8.runes password) /\ unicode.IsDigit Digit r = true.
Proof.
  unfold silent, digitValidator. rewrite digitLoop_existsb.
  rewrite <- existsb_exists.
  destruct (existsb (unicode.IsDigit Digit) (utf8.runes password)).
  - split; reflexivity.
  - unfold errDigit. split; discriminate.
Qed.

Lemma digitValidator_contributes (Digit : rune -> bool) (password : string) :
  contributes (digitValidator Digit) password errDigit
  <-> forall r, In r (utf8.runes password) -> unicode.IsDigit Digit r = false.
Proof.
  unfold contributes, digitValidator. rewrite digitLoop_existsb.
  rewrite <- existsb_false_forall.
  destruct (existsb (unicode.IsDigit Digit) (utf8.runes password)).
  - unfold errDigit. split; [intros [[=] _]|discriminate].
  - split; [reflexivity|]. intros _. split; [reflexivity|discriminate].
Qed.

(** X2: the digit rule is silent exactly when some code point of the
    input is a digit, and contributes its diagnostic exactly when none is.
    A byte '0'..'9' anywhere in the input is enough to silence it, and on
    ASCII input nothing else does. *)
Theorem digitValidator_spec (Digit : rune -> bool) (password : string) :
  (silent (digitValidator Digit) password
   <-> exists r, In r (utf8.runes password) /\ unicode.IsDigit Digit r = true)
  /\ (contributes (digitValidator Digit) password errDigit
      <-> forall r, In r (utf8.runes password) -> unicode.IsDigit Digit r = false)
  /\ ((exists b, In b (bytes password) /\ 48 <= b <= 57)
      -> silent (digitValidator Digit) password)
  /\ (asciiOnly password -> silent (digitValidator Digit) password
      -> exists b, In b (bytes password) /\ 48 <= b <= 57).
Proof.
  split; [apply digitValidator_silent|].
  split; [apply digitValidator_contributes|split].
  - intros [b [Hin Hb]]. apply digitValidator_silent.
    exists b. split; [apply runes_ascii_In; [lia|assumption]|].
    apply IsDigit_ascii; lia.
  - intros Ha Hs. apply digitValidator_silent in Hs.
    destruct Hs as [r [Hin Hr]]. rewrite (runes_asciiOnly _ Ha) in Hin.
    exists r. split; [assumption|].
    unfold asciiOnly in Ha. rewrite Forall_forall in Ha.
    apply (IsDigit_ascii Digit); [|assumption].
    specialize (Ha r Hin). simpl in Ha. lia.
Qed.

Lemma digitValidator_spec_witness :
  (exists b, In b (bytes "pass7word") /\ 48 <= b <= 57)
  /\ asciiOnly "pass7word"
  /\ silent (digitValidator (fun _ => false)) "pass7word"
  /\ exists b, In b (bytes "pass7word") /\ 48 <= b <= 57.
Proof.
  assert (Hex : exists b, In b (bytes "pass7word") /\ 48 <= b <= 57).
  { exists 55. split; [simpl; tauto|lia]. }
  assert (Ha : asciiOnly "pass7word").
  { unfold asciiOnly. simpl. repeat constructor. }
  pose proof (digitValidator_spec (fun _ => false) "pass7word") as (_ & _ & H3 & H4).
  split; [exact Hex|split; [exact Ha|split]].
  - exact (H3 Hex).
  - exact (H4 Ha (H3 Hex)).
Defined.

Lemma commonPasswordLoop_existsb (password : string) (l : list string) :
  commonPasswordLoop password l
  = Ret (if existsb (String.eqb password) l then errCommon else "").
Proof.
  induction l as [|common l IH]; simpl; [reflexivity|].
  destruct (String.eqb password common); [reflexivity|exact IH].
Qed.

Lemma existsb_eqb_In (password : string) (l : list string) :
  existsb (String.eqb password) l = true <-> In password l.
Proof.
  rewrite existsb_exists. split.
  - intros [x [Hin Heq]]. apply String.eqb_eq in Heq. now subst.
  - intros Hin. exists password. split; [assumption|apply String.eqb_refl].
Qed.

Lemma commonPasswordValidator_contributes (password : string) :
  contributes commonPasswordValidator password errCommon <-> In password commonPasswords.
Proof.
  unfold contributes, commonPasswordValidator.
  rewrite commonPasswordLoop_existsb, <- existsb_eqb_In.
  destruct (existsb (String.eqb password) commonPasswords).
  - split; [reflexivity|]. intros _. split; [reflexivity|discriminate].
  - unfold errCommon. split; [intros [[=] _]|discriminate].
Qed.

Lemma commonPasswordValidator_silent (password : string) :
  silent commonPasswordValidator password <-> ~ In password commonPasswords.
Proof.
  unfold silent, commonPasswordValidator.
  rewrite commonPasswordLoop_existsb, <- existsb_eqb_In.
  destruct (existsb (String.eqb password) commonPasswords).
  - unfold errCommon. split; [discriminate|]. intros H. now elim H.
  - split; [discriminate|reflexivity].
Qed.

Lemma validatePassword_accepts (password : string) (rules : list Validator) :
  validatePassword password rules = Ret [] <-> Forall (fun rule => silent rule password) rules.
Proof.
  unfold silent. rewrite validatePassword_runAll. split.
  - destruct (runAll password rules) as [ds|] eqn:E; simpl; [|discriminate].
    intros H. injection H as H.
    apply runAll_Ret in E. apply filter_nonEmpty_nil in H.
    induction E as [|rule d rest ds Hd _ IH]; constructor.
    + inversion H; subst. exact Hd.
    + apply IH. now inversion H.
  - intros H.
    assert (E : runAll password rules = Ret (map (fun _ => "") rules)).
    { apply runAll_Ret.
      induction H as [|rule rest Hd _ IH]; simpl; constructor; assumption. }
    rewrite E. simpl. f_equal.
    apply filter_nonEmpty_nil. apply Forall_forall.
    intros d Hin. apply in_map_iff in Hin. now destruct Hin as [_ [<- _]].
Qed.

Lemma specialCharValidator_silent (password : string) :
  silent specialCharValidator password
  <-> exists r, In r (utf8.runes password) /\ In r specialChars.
Proof.
  unfold silent, specialCharValidator. cbv zeta.
  rewrite <- MatchString_spec.
  destruct (regexp.MatchString specialChars password); simpl.
  - split; reflexivity.
  - unfold errSpecialChar. split; discriminate.
Qed.

Lemma spaceValidator_silent (password : string) :
  silent spaceValidator password <-> ~ In 32 (bytes password).
Proof.
  unfold silent, spaceValidator. rewrite <- Contains_space.
  destruct (strings.Contains password " "); simpl.
  - unfold errSpace. split; [discriminate|]. intros H. now elim H.
  - split; [discriminate|reflexivity].
Qed.

(** What the denylist entries have in common: no upper-case letter, no
    special character, no space and no repeated byte. *)
Lemma commonPasswords_shape (Upper : rune -> bool) (password : string) :
  In password commonPasswords ->
  contributes (uppercaseValidator Upper) password errUppercase
  /\ contributes specialCharValidator password errSpecialChar
  /\ silent spaceValidator password
  /\ silent repeatingCharsValidator password.
Proof.
  unfold commonPasswords. simpl.
  intros H. repeat (destruct H as [<-|H]; [|]); try contradiction;
    (split; [split; [reflexivity|discriminate]|
     split; [split; [reflexivity|discriminate]|split; reflexivity]]).
Qed.

(** X3: the common-password rule contributes its diagnostic exactly on
    the seven strings of its denylist, compared byte for byte, and is
    silent on every other input; whenever it speaks, the upper-case and
    special-character rules speak too, and the space and repeat rules are
    silent. *)
Theorem commonPasswordValidator_spec (Upper : rune -> bool) (password : string) :
  (contributes commonPasswordValidator password errCommon <-> In password commonPasswords)
  /\ (silent commonPasswordValidator password <-> ~ In password commonPasswords)
  /\ (contributes commonPasswordValidator password errCommon ->
      contributes (uppercaseValidator Upper) password errUppercase
      /\ contributes specialCharValidator password errSpecialChar
      /\ silent spaceValidator password
      /\ silent repeatingCharsValidator password).
Proof.
  split; [apply commonPasswordValidator_contributes|].
  split; [apply commonPasswordValidator_silent|].
  intros H. apply commonPasswords_shape.
  now apply commonPasswordValidator_contributes.
Qed.

Lemma commonPasswordValidator_spec_witness :
  contributes commonPasswordValidator "letmein" errCommon
  /\ contributes (uppercaseValidator (fun _ => false)) "letmein" errUppercase
  /\ contributes specialCharValidator "letmein" errSpecialChar
  /\ silent spaceValidator "letmein"
  /\ silent repeatingCharsValidator "letmein".
Proof.
  assert (H : contributes commonPasswordValidator "letmein" errCommon).
  { split; [reflexivity|discriminate]. }
  split; [exact H|].
  exact (proj2 (proj2 (commonPasswordValidator_spec (fun _ => false) "letmein")) H).
Defined.

(** X4: for acceptance the common-password rule is redundant: the seven
    rules of [main] accept a password exactly when the other six do. *)
Theorem commonPasswordValidator_redundant (Upper Digit : rune -> bool) (password : string) :
  validatePassword password (validators Upper Digit) = Ret []
  <-> validatePassword password
        [ lengthValidator; uppercaseValidator Upper; specialCharValidator;
          digitValidator Digit; spaceValidator; repeatingCharsValidator ] = Ret [].
Proof.
  rewrite !validatePassword_accepts. unfold validators. split.
  - intros H. inversion H as [|? ? H1 T1]; subst.
    inversion T1 as [|? ? H2 T2]; subst. inversion T2 as [|? ? H3 T3]; subst.
    inversion T3 as [|? ? H4 T4]; subst. inversion T4 as [|? ? H5 T5]; subst.
    inversion T5 as [|? ? H6 T6]; subst.
    repeat (constructor; try assumption).
  - intros H. inversion H as [|? ? H1 T1]; subst.
    inversion T1 as [|? ? H2 T2]; subst. inversion T2 as [|? ? H3 T3]; subst.
    inversion T3 as [|? ? H4 T4]; subst. inversion T4 as [|? ? H5 T5]; subst.
    repeat (constructor; try assumption).
    apply commonPasswordValidator_silent. intros Hin.
    destruct (commonPasswords_shape Upper password Hin) as [[Hu _] _].
    unfold silent in H2. rewrite Hu in H2. discriminate.
Qed.

Lemma diagnostics_of_flags (b1 b2 b3 b4 b5 b6 b7 : bool) :
  let ds := filter nonEmpty
              [ if b1 then errLength else ""; if b2 then "" else errUppercase;
                if b3 then errSpecialChar else ""; if b4 then "" else errDigit;
                if b5 then errSpace else ""; if b6 then errCommon else "";
                if b7 then errRepeating else "" ] in
  (In errLength ds <-> b1 = true)
  /\ (In errUppercase ds <-> b2 = false)
  /\ (In errSpecialChar ds <-> b3 = true)
  /\ (In errDigit ds <-> b4 = false)
  /\ (In errSpace ds <-> b5 = true)
  /\ (In errCommon ds <-> b6 = true)
  /\ (In errRepeating ds <-> b7 = true)
  /\ ds = filter (fun e => existsb (String.eqb e) ds) allDiagnostics.
Proof.
  cbv zeta.
  assert (Hin : forall e l, In e (filter nonEmpty l) <-> In e l /\ e <> "").
  { intros e l. rewrite filter_In. unfold nonEmpty.
    now rewrite negb_true_iff, String.eqb_neq. }
  repeat match goal with
         | |- (In _ _ <-> _) /\ _ => split
         end.
  1-7: rewrite Hin; cbn [In]; split;
    [ intros [H _];
      repeat (destruct H as [H|H];
              [ match type of H with
                | (if ?b then _ else _) = _ =>
                  destruct b; try discriminate H; try reflexivity
                end | ]);
      contradiction
    | intros ->; split; [tauto|discriminate] ].
  destruct b1, b2, b3, b4, b5, b6, b7; vm_compute; reflexivity.
Qed.

Lemma validators_runAll (Upper Digit : rune -> bool) (password : string) :
  exists b7 : bool,
    (b7 = true <-> byteRun3 password)
    /\ runAll password (validators Upper Digit)
       = Ret [ if len password <? 8 then errLength else "";
               if existsb (unicode.IsUpper Upper) (utf8.runes password)
               then "" else errUppercase;
               if negb (regexp.MatchString specialChars password)
               then errSpecialChar else "";
               if existsb (unicode.IsDigit Digit) (utf8.runes password)
               then "" else errDigit;
               if strings.Contains password " " then errSpace else "";
               if existsb (String.eqb password) commonPasswords
               then errCommon else "";
               if b7 then errRepeating else "" ].
Proof.
  assert (H7 : exists b7 : bool,
             (b7 = true <-> byteRun3 password)
             /\ repeatingCharsValidator password
                = Ret (if b7 then errRepeating else "")).
  { unfold repeatingCharsValidator.
    pose proof (byteRun3_tripleAt password) as Hrun3.
    destruct (repeatingCharsLoop_spec password 2) as [[Hex ->]|[Hno ->]]; [lia| |].
    - exists true. split; [|reflexivity]. split; [intros _; now apply Hrun3|reflexivity].
    - exists false. split; [|reflexivity]. split; [discriminate|].
      intros Hb. apply Hrun3 in Hb. destruct Hb as [j [Hj Ht]]. now elim (Hno j). }
  destruct H7 as (b7 & Hb7 & Hr). exists b7. split; [exact Hb7|].
  unfold validators. cbn [runAll]. rewrite Hr.
  unfold lengthValidator at 1, specialCharValidator at 1, spaceValidator at 1,
    uppercaseValidator at 1, digitValidator at 1, commonPasswordValidator at 1.
  rewrite uppercaseLoop_existsb, digitLoop_existsb, commonPasswordLoop_existsb.
  cbv zeta.
  destruct (len password <? 8);
    destruct (negb (regexp.MatchString specialChars password));
    destruct (strings.Contains password " "); reflexivity.
Qed.

(** X5: on every input the seven rules of [main] return without a panic,
    and each diagnostic is in the result exactly when the condition of its
    rule holds; no diagnostic comes twice and they come in the order of
    the rules. *)
Theorem validators_diagnostics (Upper Digit : rune -> bool) (password : string) :
  exists ds,
    validatePassword password (validators Upper Digit) = Ret ds
    /\ (In errLength ds <-> len password < 8)
    /\ (In errUppercase ds
        <-> forall r, In r (utf8.runes password) -> unicode.IsUpper Upper r = false)
    /\ (In errSpecialChar ds
        <-> forall r, In r (utf8.runes password) -> ~ In r specialChars)
    /\ (In errDigit ds
        <-> forall r, In r (utf8.runes password) -> unicode.IsDigit Digit r = false)
    /\ (In errSpace ds <-> In 32 (bytes password))
    /\ (In errCommon ds <-> In password commonPasswords)
    /\ (In errRepeating ds <-> byteRun3 password)
    /\ ds = filter (fun e => existsb (String.eqb e) ds) allDiagnostics.
Proof.
  destruct (validators_runAll Upper Digit password) as (b7 & Hb7 & Hrun).
  rewrite validatePassword_runAll, Hrun. cbn [bind ret Monad_go].
  eexists. split; [reflexivity|].
  match goal with
  | |- context [filter nonEmpty
                  [if ?b1 then _ else _; if ?b2 then _ else _; if ?b3 then _ else _;
                   if ?b4 then _ else _; if ?b5 then _ else _; if ?b6 then _ else _; _]] =>
    pose proof (diagnostics_of_flags b1 b2 b3 b4 b5 b6 b7)
      as (F1 & F2 & F3 & F4 & F5 & F6 & F7 & F8)
  end.
  rewrite F1, F2, F3, F4, F5, F6, F7.
  rewrite Z.ltb_lt, !existsb_false_forall, Contains_space, existsb_eqb_In, Hb7.
  repeat split; try tauto; try exact F8.
  - rewrite negb_true_iff. intros Hm r Hin Hs.
    assert (E : regexp.MatchString specialChars password = true).
    { apply MatchString_spec. exists r. split; assumption. }
    rewrite E in Hm. discriminate Hm.
  - intros Hno. apply negb_true_iff.
    destruct (regexp.MatchString specialChars password) eqn:E; [|reflexivity].
    apply MatchString_spec in E. destruct E as [r [Hin Hs]]. now elim (Hno r).
Qed.

(** X6: the seven rules of [main] accept a password exactly when it has
    at least eight bytes, an upper-case letter, one of the special
    characters and a digit, no space, no byte three times in a row, and is
    not on the denylist. *)
Theorem validators_accept (Upper Digit : rune -> bool) (password : string) :
  validatePassword password (validators Upper Digit) = Ret []
  <-> 8 <= len password
      /\ (exists r, In r (utf8.runes password) /\ unicode.IsUpper Upper r = true)
      /\ (exists r, In r (utf8.runes password) /\ In r specialChars)
      /\ (exists r, In r (utf8.runes password) /\ unicode.IsDigit Digit r = true)
      /\ ~ In 32 (bytes password)
      /\ ~ In password commonPasswords
      /\ ~ byteRun3 password.
Proof.
  rewrite validatePassword_accepts. unfold validators.
  rewrite lengthValidator_silent, <- uppercaseValidator_silent,
    <- specialCharValidator_silent, <- digitValidator_silent,
    <- spaceValidator_silent, <- commonPasswordValidator_silent.
  rewrite (proj2 (repeatingCharsValidator_bytes password)).
  split.
  - intros H. inversion H as [|? ? H1 T1]; subst.
    inversion T1 as [|? ? H2 T2]; subst. inversion T2 as [|? ? H3 T3]; subst.
    inversion T3 as [|? ? H4 T4]; subst. inversion T4 as [|? ? H5 T5]; subst.
    inversion T5 as [|? ? H6 T6]; subst. inversion T6 as [|? ? H7 T7]; subst.
    tauto.
  - intros (H1 & H2 & H3 & H4 & H5 & H6 & H7).
    repeat (constructor; try assumption).
Qed.

(* ===================================================================== *)
(** ** The console programs *)
(* ===================================================================== *)

Lemma forever_unfold {W : Type} (fuel : nat) (body : Stateful W flow) (w : W) :
  runStateT (forever (S fuel) body) w
  = match runStateT body w with
    | Ret (Stop, w') => Ret (true, w')
    | Ret (Next, w') => runStateT (forever fuel body) w'
    | Panic => Panic
    end.
Proof.
  simpl. destruct (runStateT body w) as [[[|] w']|]; reflexivity.
Qed.

Lemma menu_body_run (x : Z) (rest : list Z) (out : list string) :
  runStateT menu.body {| stdin := x :: rest; stdout := out |}
  = Ret (if x =? 3 then Stop else Next,
         {| stdin := rest;
            stdout := out ++ (if x =? 3 then menuExit else menuRound x) |}).
Proof.
  unfold menu.body, menu.optionA, menu.optionB, menuExit, menuRound, menuText,
    menuAnswer, Println, Print, Scan.
  cbn [runStateT bind ret Monad_stateT Monad_go stdin stdout].
  destruct (Z.eqb_spec x 1) as [->|H1];
    [|destruct (Z.eqb_spec x 2) as [->|H2];
      [|destruct (Z.eqb_spec x 3) as [->|H3]]];
    cbn [runStateT bind ret Monad_stateT Monad_go stdin stdout Z.eqb Pos.eqb];
    rewrite <- !app_assoc; reflexivity.
Qed.

Lemma menu_body_eof (out : list string) :
  runStateT menu.body {| stdin := []; stdout := out |}
  = Ret (Next, {| stdin := []; stdout := out ++ menuRound 0 |}).
Proof.
  unfold menu.body, menu.optionA, menu.optionB, menuRound, menuText,
    menuAnswer, Println, Print, Scan.
  cbn [runStateT bind ret Monad_stateT Monad_go stdin stdout Z.eqb].
  rewrite <- !app_assoc. reflexivity.
Qed.

(** X7: the menu of main.go is left at the first 3 that is read: every
    choice before it gets the four menu lines and its answer (option A for
    1, option B for 2, "Not an option" for anything else), the 3 gets the
    menu and "Exited", and what follows the 3 in the input is not read. *)
Theorem menu_exits_at_first_3 (xs rest : list Z) (out : list string) (fuel : nat) :
  ~ In 3 xs -> (List.length xs < fuel)%nat ->
  runStateT (menu.main fuel) {| stdin := xs ++ 3 :: rest; stdout := out |}
  = Ret (true, {| stdin := rest;
                  stdout := out ++ flat_map menuRound xs ++ menuExit |}).
Proof.
  unfold menu.main. revert out fuel.
  induction xs as [|x xs IH]; intros out fuel Hno Hfuel;
    (destruct fuel as [|fuel]; [simpl in Hfuel; lia|]);
    rewrite forever_unfold; cbn [app]; rewrite menu_body_run.
  - reflexivity.
  - destruct (Z.eqb_spec x 3) as [->|Hx]; [elim Hno; now left|].
    rewrite IH; [|intros H; apply Hno; now right|simpl in Hfuel; lia].
    cbn [flat_map]. now rewrite <- !app_assoc.
Qed.

Lemma menu_exits_at_first_3_witness :
  ~ In 3 [1; 7] /\ (List.length [1; 7] < 5)%nat
  /\ runStateT (menu.main 5) {| stdin := [1; 7] ++ 3 :: [2]; stdout := [] |}
     = Ret (true, {| stdin := [2];
                     stdout := [] ++ flat_map menuRound [1; 7] ++ menuExit |}).
Proof.
  assert (Hno : ~ In 3 [1; 7]).
  { simpl. intros [H|[H|H]]; [discriminate|discriminate|exact H]. }
  assert (Hfuel : (List.length [1; 7] < 5)%nat) by (simpl; lia).
  split; [exact Hno|split; [exact Hfuel|]].
  exact (menu_exits_at_first_3 [1; 7] [2] [] 5 Hno Hfuel).
Defined.

(** X8: without a 3 the menu of main.go is never left: after any number
    of rounds it is still running, having answered every value read, and,
    once the input is over, "Not an option" round after round. *)
Theorem menu_runs_without_3 (xs : list Z) (out : list string) (fuel : nat) :
  ~ In 3 xs ->
  runStateT (menu.main fuel) {| stdin := xs; stdout := out |}
  = Ret (false, {| stdin := skipn fuel xs;
                   stdout := out ++ flat_map menuRound (scanned 0 fuel xs) |}).
Proof.
  unfold menu.main, scanned. revert xs out.
  induction fuel as [|fuel IH]; intros xs out Hno.
  - simpl. now rewrite app_nil_r.
  - rewrite forever_unfold. destruct xs as [|x xs].
    + rewrite menu_body_eof, IH by exact Hno.
      rewrite skipn_nil, firstn_nil. cbn [app List.length Nat.sub repeat flat_map].
      rewrite Nat.sub_0_r. now rewrite <- app_assoc.
    + rewrite menu_body_run.
      destruct (Z.eqb_spec x 3) as [->|Hx]; [elim Hno; now left|].
      rewrite IH by (intros H; apply Hno; now right).
      cbn [skipn firstn app List.length Nat.sub flat_map].
      now rewrite <- app_assoc.
Qed.

Lemma menu_runs_without_3_witness :
  ~ In 3 [2]
  /\ runStateT (menu.main 3) {| stdin := [2]; stdout := [] |}
     = Ret (false, {| stdin := skipn 3 [2];
                      stdout := [] ++ flat_map menuRound (scanned 0 3 [2]) |}).
Proof.
  assert (Hno : ~ In 3 [2]).
  { simpl. intros [H|H]; [discriminate|exact H]. }
  split; [exact Hno|].
  exact (menu_runs_without_3 [2] [] 3 Hno).
Defined.







Lemma printErrors_run (errors : list string) (w : console string) :
  runStateT (prompt.printErrors errors) w
  = Ret (tt, {| stdin := stdin w;
                stdout := stdout w ++ map (fun err => (err ++ newline)%string) errors |}).
Proof.
  revert w. induction errors as [|err rest IH]; intros [input out];
    cbn [prompt.printErrors map stdin stdout].
  - simpl. now rewrite app_nil_r.
  - unfold Println, Print.
    cbn [runStateT bind ret Monad_stateT Monad_go stdin stdout].
    rewrite IH. cbn [stdin stdout]. now rewrite <- app_assoc.
Qed.

Lemma diagnosticsOf_Ret (Upper Digit : rune -> bool) (password : string) :
  validatePassword password (validators Upper Digit)
  = Ret (diagnosticsOf Upper Digit password).
Proof.
  unfold diagnosticsOf.
  destruct (validatePassword_total Upper Digit password) as [ds ->]. reflexivity.
Qed.

Lemma prompt_body_run (Upper Digit : rune -> bool) (password : string)
      (rest out : list string) :
  runStateT (prompt.body Upper Digit) {| stdin := password :: rest; stdout := out |}
  = Ret (match diagnosticsOf Upper Digit password with [] => Stop | _ => Next end,
         {| stdin := rest; stdout := out ++ promptRound Upper Digit password |}).
Proof.
  unfold prompt.body, promptRound, liftGo, Println, Print, Scan.
  cbn [runStateT bind ret Monad_stateT Monad_go stdin stdout].
  rewrite diagnosticsOf_Ret.
  cbn [runStateT bind ret Monad_stateT Monad_go stdin stdout].
  destruct (diagnosticsOf Upper Digit password) as [|d ds].
  - cbn [List.length Z.of_nat Z.eqb runStateT bind ret Monad_stateT Monad_go
             stdin stdout].
    now rewrite <- app_assoc.
  - replace (Z.of_nat (List.length (d :: ds)) =? 0) with false
      by (symmetry; apply Z.eqb_neq; simpl; lia).
    cbn [runStateT bind ret Monad_stateT Monad_go].
    rewrite printErrors_run. cbn [stdin stdout]. now rewrite <- app_assoc.
Qed.

Lemma prompt_body_eof (Upper Digit : rune -> bool) (out : list string) :
  runStateT (prompt.body Upper Digit) {| stdin := []; stdout := out |}
  = Ret (Next, {| stdin := []; stdout := out ++ promptRound Upper Digit "" |}).
Proof.
  unfold prompt.body, promptRound, liftGo, Println, Print, Scan.
  cbn [runStateT bind ret Monad_stateT Monad_go stdin stdout].
  rewrite diagnosticsOf_Ret.
  assert (E : diagnosticsOf Upper Digit ""
              = [errLength; errUppercase; errSpecialChar; errDigit]) by reflexivity.
  rewrite E.
  cbn [runStateT bind ret Monad_stateT Monad_go stdin stdout List.length Z.of_nat
       Pos.of_succ_nat Pos.succ Z.eqb].
  rewrite printErrors_run. cbn [stdin stdout]. now rewrite <- app_assoc.
Qed.

(** X11: the password prompt stops at the first password the seven
    rules accept: every password before it gets the prompt and its
    diagnostics, one per line and in the order of the rules, the accepted
    one gets the prompt and "Password is valid!", and the rest of the
    input is not read. *)
Theorem prompt_stops_at_first_valid (Upper Digit : rune -> bool)
        (rejected : list string) (good : string) (rest out : list string) (fuel : nat) :
  Forall (fun password => diagnosticsOf Upper Digit password <> []) rejected ->
  diagnosticsOf Upper Digit good = [] ->
  (List.length rejected < fuel)%nat ->
  runStateT (prompt.main Upper Digit fuel)
            {| stdin := rejected ++ good :: rest; stdout := out |}
  = Ret (true, {| stdin := rest;
                  stdout := out ++ flat_map (promptRound Upper Digit) rejected
                                ++ ["Enter password: ";
                                    ("Password is valid!" ++ newline)%string] |}).
Proof.
  unfold prompt.main. intros Hrej Hgood. revert out fuel.
  induction Hrej as [|p rejected Hp _ IH]; intros out fuel Hfuel;
    (destruct fuel as [|fuel]; [simpl in Hfuel; lia|]);
    rewrite forever_unfold; cbn [app]; rewrite prompt_body_run.
  - unfold promptRound. now rewrite Hgood.
  - destruct (diagnosticsOf Upper Digit p) as [|d ds] eqn:E; [now elim Hp|].
    rewrite IH by (simpl in Hfuel; lia).
    cbn [flat_map]. now rewrite <- !app_assoc.
Qed.

Lemma prompt_stops_at_first_valid_witness :
  Forall (fun password => diagnosticsOf (fun _ => false) (fun _ => false) password <> [])
         ["aaa"]
  /\ diagnosticsOf (fun _ => false) (fun _ => false) "Password123!" = []
  /\ (List.length ["aaa"] < 3)%nat
  /\ runStateT (prompt.main (fun _ => false) (fun _ => false) 3)
               {| stdin := ["aaa"] ++ "Password123!" :: ["later"]; stdout := [] |}
     = Ret (true, {| stdin := ["later"];
                     stdout := [] ++ flat_map (promptRound (fun _ => false) (fun _ => false))
                                              ["aaa"]
                                  ++ ["Enter password: ";
                                      ("Password is valid!" ++ newline)%string] |}).
Proof.
  assert (Hrej : Forall (fun password =>
                           diagnosticsOf (fun _ => false) (fun _ => false) password <> [])
                        ["aaa"]).
  { constructor; [discriminate|constructor]. }
  assert (Hgood : diagnosticsOf (fun _ => false) (fun _ => false) "Password123!" = [])
    by reflexivity.
  assert (Hfuel : (List.length ["aaa"] < 3)%nat) by (simpl; lia).
  split; [exact Hrej|split; [exact Hgood|split; [exact Hfuel|]]].
  exact (prompt_stops_at_first_valid (fun _ => false) (fun _ => false)
                                     ["aaa"] "Password123!" ["later"] [] 3
                                     Hrej Hgood Hfuel).
Defined.

(** X12: as long as no accepted password is read the prompt goes on,
    and it goes on for ever once the input is over, because the empty
    password it then validates is rejected. *)
Theorem prompt_runs_without_valid (Upper Digit : rune -> bool)
        (xs out : list string) (fuel : nat) :
  Forall (fun password => diagnosticsOf Upper Digit password <> []) xs ->
  runStateT (prompt.main Upper Digit fuel) {| stdin := xs; stdout := out |}
  = Ret (false, {| stdin := skipn fuel xs;
                   stdout := out ++ flat_map (promptRound Upper Digit)
                                             (scanned "" fuel xs) |}).
Proof.
  unfold prompt.main, scanned. revert xs out.
  induction fuel as [|fuel IH]; intros xs out Hrej.
  - simpl. now rewrite app_nil_r.
  - rewrite forever_unfold. destruct xs as [|p xs].
    + rewrite prompt_body_eof, IH by constructor.
      rewrite skipn_nil, firstn_nil. cbn [app List.length Nat.sub repeat flat_map].
      rewrite Nat.sub_0_r. now rewrite <- app_assoc.
    + rewrite prompt_body_run. inversion Hrej as [|? ? Hp Hxs]; subst.
      destruct (diagnosticsOf Upper Digit p) as [|d ds] eqn:E; [now elim Hp|].
      rewrite IH by exact Hxs.
      cbn [skipn firstn app List.length Nat.sub flat_map].
      now rewrite <- app_assoc.
Qed.

Lemma prompt_runs_without_valid_witness :
  Forall (fun password => diagnosticsOf (fun _ => false) (fun _ => false) password <> [])
         ["qwerty"]
  /\ runStateT (prompt.main (fun _ => false) (fun _ => false) 3)
               {| stdin := ["qwerty"]; stdout := [] |}
     = Ret (false, {| stdin := skipn 3 ["qwerty"];
                      stdout := [] ++ flat_map (promptRound (fun _ => false) (fun _ => false))
                                               (scanned "" 3 ["qwerty"]) |}).
Proof.
  assert (Hrej : Forall (fun password =>
                           diagnosticsOf (fun _ => false) (fun _ => false) password <> [])
                        ["qwerty"]).
  { constructor; [discriminate|constructor]. }
  split; [exact Hrej|].
  exact (prompt_runs_without_valid (fun _ => false) (fun _ => false) ["qwerty"] [] 3 Hrej).
Defined.

(* ===================================================================== *)
(** ** The two validators the notes add *)
(* ===================================================================== *)

Lemma prefix_app (sub : string) :
  forall s, String.prefix sub s = true <-> exists post, s = (sub ++ post)%string.
Proof.
  induction sub as [|a sub IH]; intros s.
  - split; [intros _; now exists s|]. intros _. now destruct s.
  - destruct s as [|b s]; cbn [String.prefix append].
    + split; [discriminate|intros [post [=]]].
    + destruct (ascii_dec a b) as [->|Hne].
      * rewrite IH. split; intros [post H]; exists post; congruence.
      * split; [discriminate|]. intros [post [= H _]]. now elim Hne.
Qed.

(** [strings.Contains] finds exactly the substrings. *)
Lemma Contains_substring (sub s : string) :
  strings.Contains s sub = true <-> substring_of sub s.
Proof.
  unfold substring_of. induction s as [|c t IH]; cbn [strings.Contains].
  - rewrite orb_false_r, prefix_app. split.
    + intros [post H]. now exists "", post.
    + intros [[|a pre] [post H]]; [now exists post|discriminate].
  - rewrite orb_true_iff, prefix_app, IH. split.
    + intros [[post H]|[pre [post H]]].
      * now exists "", post.
      * exists (String c pre), post. simpl. now rewrite H.
    + intros [[|a pre] [post H]].
      * left. now exists post.
      * right. injection H as _ H. now exists pre, post.
Qed.

Lemma noSpecificWordValidator_contributes (password : string) :
  contributes noSpecificWordValidator password errSpecificWord
  <-> substring_of "password" password.
Proof.
  unfold contributes, noSpecificWordValidator, errSpecificWord.
  rewrite <- Contains_substring.
  destruct (strings.Contains password "password"); cbn [ret Monad_go]; split.
  - reflexivity.
  - intros _. split; [reflexivity|discriminate].
  - intros [[=] _].
  - discriminate.
Qed.

Lemma noSpecificWordValidator_silent (password : string) :
  silent noSpecificWordValidator password <-> ~ substring_of "password" password.
Proof.
  unfold silent, noSpecificWordValidator, errSpecificWord.
  rewrite <- Contains_substring.
  destruct (strings.Contains password "password"); cbn [ret Monad_go]; split.
  - discriminate.
  - intros H. now elim H.
  - discriminate.
  - reflexivity.
Qed.

(** X13: the rule against the word "password" contributes its
    diagnostic exactly when these eight bytes occur somewhere in the
    input, in this spelling, and is silent otherwise. *)
Theorem noSpecificWordValidator_spec (password : string) :
  (contributes noSpecificWordValidator password errSpecificWord
   <-> substring_of "password" password)
  /\ (silent noSpecificWordValidator password <-> ~ substring_of "password" password).
Proof.
  split.
  - apply noSpecificWordValidator_contributes.
  - apply noSpecificWordValidator_silent.
Qed.

(** A byte of the class [A-Za-z0-9!@#]. *)
Lemma inRanges_allowedChars (r : rune) :
  inRanges allowedChars r = true
  <-> 65 <= r <= 90 \/ 97 <= r <= 122 \/ 48 <= r <= 57 \/ r = 33 \/ r = 64 \/ r = 35.
Proof.
  unfold inRanges, allowedChars. cbn [existsb fst snd].
  rewrite !orb_true_iff, !andb_true_iff, !Z.leb_le. lia.
Qed.

Lemma runes_below_128 (s : string) :
  Forall (fun r => r < 128) (utf8.runes s) -> asciiOnly s.
Proof.
  unfold asciiOnly. induction s as [|c0 t IH]; intros H; [constructor|].
  rewrite runes_unfold in H. apply Forall_cons_iff in H. destruct H as [Hr Ht].
  destruct (step_spec c0 t) as [[Hlt E]|(_ & Hge & _)]; [|lia].
  rewrite E in Ht. cbn [snd skip] in Ht.
  cbn [bytes]. constructor; [exact Hlt|now apply IH].
Qed.

Lemma MatchStringAll_bytes (s : string) :
  MatchStringAll allowedChars s = true
  <-> Forall (fun b => inRanges allowedChars b = true) (bytes s).
Proof.
  unfold MatchStringAll. rewrite forallb_forall, <- Forall_forall. split.
  - intros H.
    assert (Ha : asciiOnly s).
    { apply runes_below_128. revert H. apply Forall_impl.
      intros r Hr. apply inRanges_allowedChars in Hr. lia. }
    now rewrite <- (runes_asciiOnly s Ha).
  - intros H.
    assert (Ha : asciiOnly s).
    { unfold asciiOnly. revert H. apply Forall_impl.
      intros r Hr. apply inRanges_allowedChars in Hr. lia. }
    now rewrite (runes_asciiOnly s Ha).
Qed.

Lemma regexPatternValidator_silent (password : string) :
  silent regexPatternValidator password
  <-> Forall (fun b => inRanges allowedChars b = true) (bytes password).
Proof.
  unfold silent, regexPatternValidator, errInvalidChars. cbv zeta.
  rewrite <- MatchStringAll_bytes.
  destruct (MatchStringAll allowedChars password); cbn [negb ret Monad_go].
  - split; reflexivity.
  - split; discriminate.
Qed.

Lemma regexPatternValidator_allowed (password : string) :
  silent regexPatternValidator password
  <-> Forall (fun b => 65 <= b <= 90 \/ 97 <= b <= 122 \/ 48 <= b <= 57
                       \/ b = 33 \/ b = 64 \/ b = 35) (bytes password).
Proof.
  rewrite regexPatternValidator_silent. split; apply Forall_impl;
    intros b; apply inRanges_allowedChars.
Qed.

(** X14: the rule on the allowed characters is silent exactly when every
    byte of the input is an ASCII letter, a digit or one of ! @ #, and
    contributes its diagnostic as soon as one byte is anything else: a
    space, another sign, or any byte of a character outside ASCII. *)
Theorem regexPatternValidator_spec (password : string) :
  (silent regexPatternValidator password
   <-> Forall (fun b => 65 <= b <= 90 \/ 97 <= b <= 122 \/ 48 <= b <= 57
                        \/ b = 33 \/ b = 64 \/ b = 35) (bytes password))
  /\ (contributes regexPatternValidator password errInvalidChars
      <-> exists b, In b (bytes password)
                    /\ ~ (65 <= b <= 90 \/ 97 <= b <= 122 \/ 48 <= b <= 57
                          \/ b = 33 \/ b = 64 \/ b = 35)).
Proof.
  pose proof (regexPatternValidator_allowed password) as Hs.
  split; [exact Hs|].
  rewrite <- Exists_exists, Exists_Forall_neg, <- Hs.
  - unfold contributes, silent, regexPatternValidator, errInvalidChars. cbv zeta.
    destruct (MatchStringAll allowedChars password); cbn [negb ret Monad_go].
    + split; [intros [[=] _]|]. intros H. now elim H.
    + split; [discriminate|]. intros _. split; [reflexivity|discriminate].
  - intros b. lia.
Qed.

Lemma extendedValidators_silent (Upper Digit : rune -> bool) (password : string) :
  validatePassword password (extendedValidators Upper Digit) = Ret []
  <-> validatePassword password (validators Upper Digit) = Ret []
      /\ silent noSpecificWordValidator password
      /\ silent regexPatternValidator password.
Proof.
  unfold extendedValidators. rewrite !validatePassword_accepts, !Forall_app.
  split.
  - intros [[H1 H2] H3]. inversion H2; subst. inversion H3; subst. tauto.
  - intros (H1 & H2 & H3). repeat split; try assumption; now constructor.
Qed.

(** X15: with the two rules appended, a password is accepted exactly when
    the seven rules of [main] accept it, it does not contain the word
    "password", and all its bytes are allowed characters. *)
Theorem extendedValidators_accept (Upper Digit : rune -> bool) (password : string) :
  validatePassword password (extendedValidators Upper Digit) = Ret []
  <-> validatePassword password (validators Upper Digit) = Ret []
      /\ ~ substring_of "password" password
      /\ Forall (fun b => 65 <= b <= 90 \/ 97 <= b <= 122 \/ 48 <= b <= 57
                          \/ b = 33 \/ b = 64 \/ b = 35) (bytes password).
Proof.
  rewrite extendedValidators_silent, noSpecificWordValidator_silent,
    regexPatternValidator_allowed. reflexivity.
Qed.

(** X16: once the two rules are appended, only ! @ # can meet the
    special-character rule: every accepted password is pure ASCII and
    contains one of them. *)
Theorem extendedValidators_special (Upper Digit : rune -> bool) (password : string) :
  validatePassword password (extendedValidators Upper Digit) = Ret [] ->
  asciiOnly password
  /\ exists b, In b (bytes password) /\ (b = 33 \/ b = 64 \/ b = 35).
Proof.
  intros H. apply extendedValidators_silent in H. destruct H as (Hbase & _ & Hre).
  apply regexPatternValidator_allowed in Hre.
  assert (Ha : asciiOnly password).
  { unfold asciiOnly. revert Hre. apply Forall_impl. intros b Hb. lia. }
  split; [exact Ha|].
  apply validatePassword_accepts in Hbase. unfold validators in Hbase.
  inversion Hbase as [|? ? _ T1]; subst. inversion T1 as [|? ? _ T2]; subst.
  inversion T2 as [|? ? H3 _]; subst.
  apply specialCharValidator_silent in H3. destruct H3 as [r [Hin Hs]].
  rewrite (runes_asciiOnly _ Ha) in Hin.
  exists r. split; [exact Hin|].
  rewrite Forall_forall in Hre. specialize (Hre r Hin).
  unfold specialChars in Hs. simpl in Hs. lia.
Qed.

Lemma extendedValidators_special_witness :
  validatePassword "Password123!" (extendedValidators (fun _ => false) (fun _ => false))
  = Ret []
  /\ asciiOnly "Password123!"
  /\ exists b, In b (bytes "Password123!") /\ (b = 33 \/ b = 64 \/ b = 35).
Proof.
  assert (H : validatePassword "Password123!"
                (extendedValidators (fun _ => false) (fun _ => false)) = Ret [])
    by reflexivity.
  split; [exact H|].
  exact (extendedValidators_special (fun _ => false) (fun _ => false) "Password123!" H).
Defined.

(* ===================================================================== *)
(** ** The engine and the repeat-run rule, as the code has them *)
(* ===================================================================== *)

(** X18: the repeat-run rule never panics; it contributes its diagnostic
    exactly when some byte of the input occurs three times in a row and
    is silent otherwise; on ASCII input that is exactly when a character
    is repeated three times in a row. *)
Theorem repeatingCharsValidator_spec (password : string) :
  (exists d, repeatingCharsValidator password = Ret d)
  /\ (contributes repeatingCharsValidator password errRepeating <-> byteRun3 password)
  /\ (silent repeatingCharsValidator password <-> ~ byteRun3 password)
  /\ (asciiOnly password ->
      (contributes repeatingCharsValidator password errRepeating <-> runeRun3 password)).
Proof.
  destruct (repeatingCharsValidator_bytes password) as [Hc Hs].
  split; [apply repeatingCharsValidator_total|].
  split; [symmetry; exact Hc|].
  split; [symmetry; exact Hs|].
  intros Ha. rewrite (asciiOnly_runs password Ha). symmetry. exact Hc.
Qed.

Lemma repeatingCharsValidator_spec_witness :
  asciiOnly "baaad"
  /\ (contributes repeatingCharsValidator "baaad" errRepeating <-> runeRun3 "baaad").
Proof.
  assert (Ha : asciiOnly "baaad").
  { unfold asciiOnly. simpl. repeat constructor. }
  split; [exact Ha|].
  exact (proj2 (proj2 (proj2 (repeatingCharsValidator_spec "baaad"))) Ha).
Defined.
